(** * medical-app.js: shallow embedding and checked properties

    The page script [static/js/medical-app.js] bundles a lifecycle class
    ([MedicalApp]), an event log ([MedicalAnalytics]), two validators
    ([MedicalApp.validateImage], [SecurityUtils.secureFileUpload]), an HTML
    escaper, the widget factories of [UIComponents] and the [Utils] helpers.
    Each routine a property is stated about is transcribed below as a Rocq
    function, module by module as in the source, and the properties follow
    after the definitions. *)

From Stdlib Require Import ZArith List String Ascii Bool Lia DecimalString Sorted.
From Stdlib Require DecimalN DecimalFacts.
Import ListNotations.

Open Scope string_scope.
Open Scope Z_scope.

(** ** The JavaScript values the script manipulates *)

Module Js.

(** A call either returns a value or throws [new Error(message)]. *)
Inductive completion (A : Type) : Type :=
| Return (value : A)
| Throw (message : string).
Arguments Return {A} value.
Arguments Throw {A} message.

(** Strings are sequences of code units; the model keeps the code units
    below 256 (ASCII and Latin-1), one [ascii] each. *)
Definition code (c : ascii) : N := N_of_ascii c.

(** [Array.prototype.includes] on an array of strings. *)
Definition array_includes (xs : list string) (x : string) : bool :=
  existsb (String.eqb x) xs.

(** [t] matches [s] at position 0. *)
Fixpoint starts_with (t s : string) : bool :=
  match t, s with
  | EmptyString, _ => true
  | String _ _, EmptyString => false
  | String c t', String d s' => Ascii.eqb c d && starts_with t' s'
  end.

(** [String.prototype.includes]: [t] occurs in [s] at some position. *)
Fixpoint includes (s t : string) : bool :=
  if starts_with t s then true
  else match s with
       | EmptyString => false
       | String _ s' => includes s' t
       end.

(** [String.prototype.toLowerCase] on the code units of the model: A-Z and
    the Latin-1 capitals (U+00C0..U+00DE without the multiplication sign)
    move up by 32, every other unit is kept. *)
Definition lower_unit (c : ascii) : ascii :=
  let n := code c in
  if ((65 <=? n) && (n <=? 90)
      || (192 <=? n) && (n <=? 222) && negb (n =? 215))%N
  then ascii_of_N (n + 32)
  else c.

Fixpoint toLowerCase (s : string) : string :=
  match s with
  | EmptyString => EmptyString
  | String c s' => String (lower_unit c) (toLowerCase s')
  end.

(** The fields of a [File] object the validators read. *)
Record File : Type := mkFile { name : string; type : string; size : Z }.

(** *** Numbers

    The counts the formatters receive are non-negative integers.  A quotient
    of such a count by a power of 1024 is exact in a double, and is kept as
    the fraction [(numerator, denominator)]. *)
Definition fraction : Type := (Z * Z)%type.

(** [Math.pow(k, i)] for an integer [i] of either sign. *)
Definition pow (k i : Z) : fraction :=
  if 0 <=? i then (k ^ i, 1) else (1, k ^ (- i)).

(** [bytes / p]. *)
Definition divide (bytes : Z) (p : fraction) : fraction :=
  (bytes * snd p, fst p).

(** The integer [n] for which [n / 10^digits] is nearest to [x], the larger
    one when two are equally near: the choice [Number.prototype.toFixed]
    makes. *)
Definition nearest (x : fraction) (digits : Z) : Z :=
  (2 * fst x * 10 ^ digits + snd x) / (2 * snd x).

Definition digit (d : Z) : ascii := ascii_of_N (48 + Z.to_N d).

Definition integer_text (n : Z) : string :=
  NilZero.string_of_uint (N.to_uint (Z.to_N n)).

(** The [places] decimal digits of [r / 10^places], for [0 <= r < 10^places]. *)
Fixpoint fraction_text (places : nat) (r : Z) : string :=
  match places with
  | O => EmptyString
  | S p => String (digit (r / 10 ^ Z.of_nat p)) (fraction_text p (r mod 10 ^ Z.of_nat p))
  end.

(** The text of [n / 10^places] with exactly [places] decimals. *)
Definition fixed_text (n : Z) (places : nat) : string :=
  let scale := 10 ^ Z.of_nat places in
  (integer_text (n / scale)
   ++ match places with
      | O => EmptyString
      | S _ => String "." (fraction_text places (n mod scale))
      end)%string.

(** [x.toFixed(digits)] for [0 <= x < 10^21]; a [digits] outside 0..100 is a
    RangeError. *)
Definition toFixed (x : fraction) (digits : Z) : completion string :=
  if (digits <? 0) || (100 <? digits)
  then Throw "toFixed() digits argument must be between 0 and 100"
  else Return (fixed_text (nearest x digits) (Z.to_nat digits)).

Fixpoint strip_zeros (digits : string) : string :=
  match digits with
  | EmptyString => EmptyString
  | String c rest =>
      match strip_zeros rest with
      | EmptyString => if Ascii.eqb c "0" then EmptyString else String c EmptyString
      | kept => String c kept
      end
  end.

(** [parseFloat(text) + ...]: the decimal is read back and printed by the
    string concatenation in shortest form, which for a decimal of at most 15
    significant digits is the decimal without the zeros that end its
    fraction, and without the point when no decimal is left. *)
Fixpoint parseFloat_text (text : string) : string :=
  match text with
  | EmptyString => EmptyString
  | String c rest =>
      if Ascii.eqb c "."
      then match strip_zeros rest with
           | EmptyString => EmptyString
           | kept => String "." kept
           end
      else String c (parseFloat_text rest)
  end.

(** [... + array[i]]: an index outside the array reads [undefined]. *)
Definition item (array : list string) (i : Z) : string :=
  if i <? 0 then "undefined" else nth (Z.to_nat i) array "undefined".

(** The integer logarithm the expression
    [Math.floor(Math.log(bytes) / Math.log(k))] stands for, for [k] a power
    of two. *)
Definition exact_log_floor (bytes k : Z) : Z := Z.log2 bytes / Z.log2 k.

(** *** Trimming

    The white space and line terminators among the code units of the model:
    tab, line feed, vertical tab, form feed, carriage return, space and the
    no-break space. *)
Definition is_space (c : ascii) : bool :=
  let n := code c in
  ((9 <=? n) && (n <=? 13) || (n =? 32) || (n =? 160))%N.

Fixpoint trimStart (s : string) : string :=
  match s with
  | EmptyString => EmptyString
  | String c rest => if is_space c then trimStart rest else s
  end.

Fixpoint trimEnd (s : string) : string :=
  match s with
  | EmptyString => EmptyString
  | String c rest =>
      match trimEnd rest with
      | EmptyString => if is_space c then EmptyString else String c EmptyString
      | kept => String c kept
      end
  end.

(** [String.prototype.trim]. *)
Definition trim (s : string) : string := trimEnd (trimStart s).

End Js.

Import Js.

(** ** Timers

    [setTimeout] and [clearTimeout] over a virtual clock in milliseconds.  A
    timer runs when the clock reaches its due time; timers that are due run
    before a call arriving at the same instant, in the order of their due
    times and, among equals, of their creation.  The callbacks of this script
    read and write the variables they close over and start no timer
    themselves, so a callback is a function of the current time and of these
    variables. *)

Module EventLoop.

Section WithVars.

(** The variables the callbacks close over. *)
Variable V : Type.

Record timer : Type := mkTimer {
  timer_id : nat;
  due : Z;
  callback : Z -> V -> V
}.

Record loop : Type := mkLoop {
  now : Z;
  next_id : nat;
  queue : list timer;
  vars : V
}.

(** Timer handles are positive integers. *)
Definition start (v : V) : loop :=
  {| now := 0; next_id := 1; queue := []; vars := v |}.

Definition set_vars (l : loop) (v : V) : loop :=
  {| now := now l; next_id := next_id l; queue := queue l; vars := v |}.

(** The queue is kept in firing order. *)
Fixpoint enqueue (tm : timer) (q : list timer) : list timer :=
  match q with
  | [] => [tm]
  | x :: q' => if due x <=? due tm then x :: enqueue tm q' else tm :: q
  end.

(** [setTimeout(callback, delay)]: a negative delay counts as 0. *)
Definition setTimeout (cb : Z -> V -> V) (delay : Z) (l : loop) : nat * loop :=
  let id := next_id l in
  (id, {| now := now l;
          next_id := S id;
          queue := enqueue (mkTimer id (now l + Z.max 0 delay) cb) (queue l);
          vars := vars l |}).

(** [clearTimeout(handle)]; [undefined] and [null] are [None]. *)
Definition clearTimeout (handle : option nat) (l : loop) : loop :=
  match handle with
  | None => l
  | Some id =>
      {| now := now l;
         next_id := next_id l;
         queue := filter (fun tm => negb (Nat.eqb (timer_id tm) id)) (queue l);
         vars := vars l |}
  end.

(** Run, in order, the timers due at or before [t]. *)
Fixpoint fire (t : Z) (q : list timer) (v : V) : list timer * V :=
  match q with
  | [] => ([], v)
  | tm :: q' =>
      if due tm <=? t then fire t q' (callback tm (due tm) v) else (q, v)
  end.

(** Let the clock advance to [t]. *)
Definition run_until (t : Z) (l : loop) : loop :=
  let (q, v) := fire t (queue l) (vars l) in
  {| now := Z.max (now l) t; next_id := next_id l; queue := q; vars := v |}.

(** Let every pending timer run. *)
Definition drain (l : loop) : loop :=
  let v := fold_left (fun v tm => callback tm (due tm) v) (queue l) (vars l) in
  {| now := fold_left (fun n tm => Z.max n (due tm)) (queue l) (now l);
     next_id := next_id l; queue := []; vars := v |}.

End WithVars.

Arguments mkTimer {V}.
Arguments timer_id {V}.
Arguments due {V}.
Arguments callback {V}.
Arguments mkLoop {V}.
Arguments now {V}.
Arguments next_id {V}.
Arguments queue {V}.
Arguments vars {V}.
Arguments start {V}.
Arguments set_vars {V}.
Arguments enqueue {V}.
Arguments setTimeout {V}.
Arguments clearTimeout {V}.
Arguments fire {V}.
Arguments run_until {V}.
Arguments drain {V}.

End EventLoop.

(** ** The part of the DOM the script drives *)

Module Dom.

(** The quotation mark and the no-break space as code units. *)
Definition quot : ascii := "034"%char.
Definition nbsp : ascii := "160"%char.

(** A [div] made by [document.createElement] holds text nodes only here. *)
Inductive node : Type := TextNode (data : string).

Record element : Type := mkElement { tagName : string; childNodes : list node }.

Definition createElement (tag : string) : element :=
  {| tagName := tag; childNodes := [] |}.

(** The [textContent] setter replaces all children by one text node, or by
    nothing when the string is empty. *)
Definition set_textContent (el : element) (str : string) : element :=
  {| tagName := tagName el;
     childNodes := match str with
                   | EmptyString => []
                   | String _ _ => [TextNode str]
                   end |}.

(** The HTML fragment serialisation of a text node, outside attribute mode:
    the ampersand, the no-break space and the two angle brackets are
    replaced, nothing else is. *)
Definition escape_unit (c : ascii) : string :=
  if Ascii.eqb c "&" then "&amp;"
  else if Ascii.eqb c nbsp then "&nbsp;"
  else if Ascii.eqb c "<" then "&lt;"
  else if Ascii.eqb c ">" then "&gt;"
  else String c EmptyString.

Fixpoint escape_string (s : string) : string :=
  match s with
  | EmptyString => EmptyString
  | String c s' => (escape_unit c ++ escape_string s')%string
  end.

Definition serialize (n : node) : string :=
  match n with TextNode data => escape_string data end.

(** The [innerHTML] getter. *)
Definition innerHTML (el : element) : string :=
  String.concat EmptyString (map serialize (childNodes el)).

(** A [classList] is an ordered set of tokens. *)
Definition classList : Type := list string.

Definition contains (cl : classList) (token : string) : bool :=
  existsb (String.eqb token) cl.

Definition add (cl : classList) (token : string) : classList :=
  if contains cl token then cl else (cl ++ [token])%list.

Definition remove (cl : classList) (token : string) : classList :=
  filter (fun t => negb (String.eqb token t)) cl.

(** An element of the page, as far as the handlers look at it: its class
    list and its [data-bs-toggle] attribute. *)
Record htmlElement : Type := mkHtmlElement {
  el_id : nat;
  el_classList : classList;
  data_bs_toggle : option string
}.

(** The optional global [bootstrap]: [Modal.getInstance] tells, for an
    element, whether a modal instance is attached to it. *)
Record toolkit : Type := mkToolkit { Modal_getInstance : htmlElement -> bool }.

(** The page a handler runs in.  [bootstrap] is [None] when the global is
    not defined. *)
Record page : Type := mkPage {
  innerWidth : Z;
  body_classList : classList;
  elements : list htmlElement;
  bootstrap : option toolkit
}.

(** What a handler asks of its collaborators. *)
Inductive effect : Type :=
| TooltipNew (target : nat)
| ModalHide (target : nat)
| Click (target : nat).

(** [document.querySelectorAll('.modal.show')]. *)
Definition openModals (p : page) : list htmlElement :=
  filter (fun el => contains (el_classList el) "modal" && contains (el_classList el) "show")
         (elements p).

(** [document.querySelectorAll('[data-bs-toggle="tooltip"]')]. *)
Definition tooltipTriggerList (p : page) : list htmlElement :=
  filter (fun el => match data_bs_toggle el with
                    | Some v => String.eqb v "tooltip"
                    | None => false
                    end)
         (elements p).

(** [classList.toggle(token, force)]: with [force] the token is added,
    without it removed. *)
Definition toggle (cl : classList) (token : string) (force : bool) : classList :=
  if force then add cl token else remove cl token.

(** The target of an event, which need not be an HTML element: [document]
    and [window] have no [classList], and an SVG element has a [classList]
    but no [click] method. *)
Record eventTarget : Type := mkEventTarget {
  target_id : nat;
  target_classList : option classList;
  target_click : bool
}.

(** An HTML element as the target of an event. *)
Definition elementTarget (el : htmlElement) : eventTarget :=
  {| target_id := el_id el; target_classList := Some (el_classList el);
     target_click := true |}.

(** The identifier [bootstrap] as a page may have it: not defined; defined
    as something on which [bootstrap.Modal.getInstance] cannot be called; or
    the toolkit. *)
Inductive bootstrapGlobal : Type :=
| NotDefined
| NotAToolkit
| Toolkit (b : toolkit).

Definition globalOf (b : option toolkit) : bootstrapGlobal :=
  match b with
  | Some t => Toolkit t
  | None => NotDefined
  end.

End Dom.

(** ** class MedicalApp *)

Module MedicalApp.

Definition validTypes : list string :=
  ["image/jpeg"; "image/jpg"; "image/png"; "image/gif"; "image/bmp"; "image/tiff"].

Definition maxSize : Z := 16 * 1024 * 1024.

Definition validateImage (file : File) : completion bool :=
  if negb (array_includes validTypes (type file)) then
    Throw "Invalid file type. Please upload an image file (JPEG, PNG, GIF, BMP, TIFF)"
  else if size file >? maxSize then
    Throw "File too large. Maximum size is 16MB"
  else Return true.

Section FormatFileSize.

(** [log_floor bytes k] is what the engine computes for
    [Math.floor(Math.log(bytes) / Math.log(k))]; [Math.log] is left to the
    engine by the language, so the value is a parameter of the model. *)
Variable log_floor : Z -> Z -> Z.

Definition formatFileSize (bytes : Z) : string :=
  if bytes =? 0 then "0 Bytes"
  else
    let k := 1024 in
    let sizes := ["Bytes"; "KB"; "MB"; "GB"] in
    let i := log_floor bytes k in
    (parseFloat_text (fixed_text (nearest (divide bytes (pow k i)) 2) 2)
     ++ " " ++ item sizes i)%string.

End FormatFileSize.

(** The tooltip block of [initializeComponents]: guarded by
    [typeof bootstrap !== 'undefined']. *)
Definition initializeComponents (p : Dom.page) : completion (list Dom.effect) :=
  match Dom.bootstrap p with
  | Some _ =>
      Return (map (fun tooltipTriggerEl => Dom.TooltipNew (Dom.el_id tooltipTriggerEl))
                  (Dom.tooltipTriggerList p))
  | None => Return []
  end.

(** The [openModals.forEach] callback of the keydown listener.  Reading the
    identifier [bootstrap] when the global is not defined throws a
    ReferenceError, which ends the loop and the listener. *)
Fixpoint closeModals (bootstrap : option Dom.toolkit) (modals : list Dom.htmlElement)
  : completion (list Dom.effect) :=
  match modals with
  | [] => Return []
  | modal :: rest =>
      match bootstrap with
      | None => Throw "bootstrap is not defined"
      | Some b =>
          let hidden :=
            if Dom.Modal_getInstance b modal then [Dom.ModalHide (Dom.el_id modal)] else [] in
          match closeModals bootstrap rest with
          | Return more => Return (hidden ++ more)%list
          | Throw message => Throw message
          end
      end
  end.

(** The listener [setupKeyboardNavigation] installs for [keydown], run on
    an event with key [key] and target [target]. *)
Definition onKeydown (key : string) (target : Dom.htmlElement) (p : Dom.page)
  : completion (list Dom.effect) :=
  let escape :=
    if String.eqb key "Escape" then closeModals (Dom.bootstrap p) (Dom.openModals p)
    else Return [] in
  match escape with
  | Throw message => Throw message
  | Return hidden =>
      if String.eqb key "Enter" && Dom.contains (Dom.el_classList target) "custom-btn"
      then Return (hidden ++ [Dom.Click (Dom.el_id target)])%list
      else Return hidden
  end.

(** [handleResponsiveLayout] reads [window.innerWidth] and edits the class
    list of [document.body]. *)
Definition handleResponsiveLayout (p : Dom.page) : Dom.page :=
  let width := Dom.innerWidth p in
  let body :=
    if width <? 768 then Dom.add (Dom.body_classList p) "mobile-layout"
    else Dom.remove (Dom.body_classList p) "mobile-layout" in
  let body :=
    if (width >=? 768) && (width <? 992) then Dom.add body "tablet-layout"
    else Dom.remove body "tablet-layout" in
  {| Dom.innerWidth := Dom.innerWidth p;
     Dom.body_classList := body;
     Dom.elements := Dom.elements p;
     Dom.bootstrap := Dom.bootstrap p |}.

(** [checkSystemHealth], on a page where [navigator.onLine] and
    [document.readyState] read as given. *)
Definition checkSystemHealth (onLine : bool) (readyState : string) (p : Dom.page)
  : Dom.page :=
  let isHealthy := onLine && String.eqb readyState "complete" in
  {| Dom.innerWidth := Dom.innerWidth p;
     Dom.body_classList := Dom.body_classList p;
     Dom.elements :=
       map (fun indicator =>
              if Dom.contains (Dom.el_classList indicator) "health-indicator"
              then
                let cl := Dom.toggle (Dom.el_classList indicator) "healthy" isHealthy in
                let cl := Dom.toggle cl "unhealthy" (negb isHealthy) in
                {| Dom.el_id := Dom.el_id indicator;
                   Dom.el_classList := cl;
                   Dom.data_bs_toggle := Dom.data_bs_toggle indicator |}
              else indicator)
           (Dom.elements p);
     Dom.bootstrap := Dom.bootstrap p |}.

(** [bar.style.width = width] for the bar at position [k] of the node list
    [document.querySelectorAll('.confidence-fill')]; the state is the list of
    the bars' widths. *)
Fixpoint set_width (k : nat) (width : string) (widths : list string) : list string :=
  match widths, k with
  | [], _ => []
  | _ :: rest, O => width :: rest
  | w :: rest, S k' => w :: set_width k' width rest
  end.

(** The callback [progressBars.forEach] runs on the bar at position [k]. *)
Definition animateBar (l : EventLoop.loop (list string)) (k : nat)
  : EventLoop.loop (list string) :=
  let width := nth k (EventLoop.vars l) EmptyString in
  let l := EventLoop.set_vars l (set_width k "0%" (EventLoop.vars l)) in
  snd (EventLoop.setTimeout (fun _ widths => set_width k width widths) 500 l).

Definition initializeProgressBars (l : EventLoop.loop (list string))
  : EventLoop.loop (list string) :=
  fold_left animateBar (seq 0 (List.length (EventLoop.vars l))) l.

(** A [button] element as [setupAccessibility] sees it: the value of its
    [aria-label] attribute, when it has one, and its text. *)
Record button : Type := mkButton {
  button_id : nat;
  aria_label : option string;
  textContent : string
}.

(** The labelling pass of [setupAccessibility] over the buttons of the
    document; [button:not([aria-label])] leaves out a button that has the
    attribute, whatever its value. *)
Definition setupAccessibility (buttons : list button) : list button :=
  map (fun b =>
         match aria_label b with
         | Some _ => b
         | None =>
             let text := trim (textContent b) in
             match text with
             | EmptyString => b
             | String _ _ =>
                 {| button_id := button_id b; aria_label := Some text;
                    textContent := textContent b |}
             end
         end)
      buttons.

(** The callback [initializeAnimations] gives the IntersectionObserver, run
    on a batch of entries, each with the identity of its target and its
    [isIntersecting] flag. *)
Definition reveal (target : nat) (els : list Dom.htmlElement) : list Dom.htmlElement :=
  map (fun el : Dom.htmlElement =>
         if Nat.eqb (Dom.el_id el) target
         then {| Dom.el_id := Dom.el_id el;
                 Dom.el_classList := Dom.add (Dom.el_classList el) "animate-in";
                 Dom.data_bs_toggle := Dom.data_bs_toggle el |}
         else el)
      els.

Definition onIntersection (entries : list (nat * bool)) (els : list Dom.htmlElement)
  : list Dom.htmlElement :=
  fold_left (fun (els : list Dom.htmlElement) (entry : nat * bool) =>
               if snd entry then reveal (fst entry) els else els)
            entries els.

(** The keydown listener once more, for any event target and any value of
    the identifier [bootstrap].  Beside the ReferenceError of an undefined
    [bootstrap], the calls on lines 110, 118 and 119 can throw a TypeError:
    [bootstrap.Modal.getInstance] on a global that is not the toolkit,
    [e.target.classList.contains] on a target without [classList], and
    [e.target.click] on a target without that method.  Only the open modals
    of the page [p] are read from it. *)
Fixpoint closeModalsWith (bootstrap : Dom.bootstrapGlobal) (modals : list Dom.htmlElement)
  : completion (list Dom.effect) :=
  match modals with
  | [] => Return []
  | modal :: rest =>
      match bootstrap with
      | Dom.NotDefined => Throw "bootstrap is not defined"
      | Dom.NotAToolkit => Throw "bootstrap.Modal.getInstance is not a function"
      | Dom.Toolkit b =>
          let hidden :=
            if Dom.Modal_getInstance b modal then [Dom.ModalHide (Dom.el_id modal)] else [] in
          match closeModalsWith bootstrap rest with
          | Return more => Return (hidden ++ more)%list
          | Throw message => Throw message
          end
      end
  end.

Definition onKeydownEvent (key : string) (target : Dom.eventTarget)
           (bootstrap : Dom.bootstrapGlobal) (p : Dom.page) : completion (list Dom.effect) :=
  let escape :=
    if String.eqb key "Escape" then closeModalsWith bootstrap (Dom.openModals p)
    else Return [] in
  match escape with
  | Throw message => Throw message
  | Return hidden =>
      if String.eqb key "Enter"
      then match Dom.target_classList target with
           | None => Throw "Cannot read properties of undefined (reading 'contains')"
           | Some classList =>
               if Dom.contains classList "custom-btn"
               then if Dom.target_click target
                    then Return (hidden ++ [Dom.Click (Dom.target_id target)])%list
                    else Throw "e.target.click is not a function"
               else Return hidden
           end
      else Return hidden
  end.

End MedicalApp.

(** ** class MedicalAnalytics *)

Module MedicalAnalytics.

(** The values stored in an event: strings, integers, [undefined]. *)
Inductive value : Type :=
| Undefined
| Str (s : string)
| Num (n : Z).

(** Equality as [Set] decides it. *)
Definition value_eqb (a b : value) : bool :=
  match a, b with
  | Undefined, Undefined => true
  | Str s, Str s' => String.eqb s s'
  | Num n, Num n' => Z.eqb n n'
  | _, _ => false
  end.

(** A plain object: its own properties in the order of their creation. *)
Definition object : Type := list (string * value).

(** Defining a property: an existing key keeps its place and takes the new
    value, a new key goes last. *)
Fixpoint set_property (o : object) (key : string) (v : value) : object :=
  match o with
  | [] => [(key, v)]
  | (k, x) :: rest =>
      if String.eqb k key then (k, v) :: rest else (k, x) :: set_property rest key v
  end.

(** Reading a property; a missing key reads [undefined]. *)
Fixpoint get (o : object) (key : string) : value :=
  match o with
  | [] => Undefined
  | (k, x) :: rest => if String.eqb k key then x else get rest key
  end.

(** The object literal [{ ...target, ...source }]. *)
Definition spread (target source : object) : object :=
  fold_left (fun o kv => set_property o (fst kv) (snd kv)) source target.

(** What the page offers: [navigator.userAgent], [window.location.href], and
    whether the global function [gtag] is defined. *)
Record host : Type := mkHost { userAgent : string; href : string; gtag : bool }.

(** The instance: [this.sessionStart] and [this.events]. *)
Record analytics : Type := mkAnalytics { sessionStart : Z; events : list object }.

(** [new MedicalAnalytics()] when [Date.now()] reads [now]. *)
Definition new (now : Z) : analytics := {| sessionStart := now; events := [] |}.

(** A call [gtag('event', name, { custom_parameter: JSON.stringify(eventData) })]. *)
Inductive gtagCall : Type := GtagEvent (name : value) (eventData : object).

Definition sendToAnalytics (h : host) (eventData : object) (sent : list gtagCall)
  : list gtagCall :=
  if gtag h then (sent ++ [GtagEvent (get eventData "event") eventData])%list else sent.

(** [track(event, data)]; [timestamp] and [later] are the two readings of
    [Date.now()] the call makes, [sent] the calls of [gtag] so far. *)
Definition track (h : host) (timestamp later : Z) (event : value) (data : object)
           (st : analytics * list gtagCall) : analytics * list gtagCall :=
  let (this, sent) := st in
  let eventData :=
    spread [("event", event);
            ("timestamp", Num timestamp);
            ("sessionDuration", Num (later - sessionStart this));
            ("userAgent", Str (userAgent h));
            ("url", Str (href h))]
           data in
  ({| sessionStart := sessionStart this; events := (events this ++ [eventData])%list |},
   sendToAnalytics h eventData sent).

(** [new Set(values)], spread back into an array: the first occurrence of
    each value, in order. *)
Definition new_Set (values : list value) : list value :=
  fold_left (fun seen v => if existsb (value_eqb v) seen then seen else (seen ++ [v])%list)
            values [].

Record summary : Type := mkSummary {
  sessionDuration : Z;
  totalEvents : nat;
  uniqueEvents : nat;
  summary_events : list object
}.

Definition getSessionSummary (now : Z) (this : analytics) : summary :=
  {| sessionDuration := now - sessionStart this;
     totalEvents := List.length (events this);
     uniqueEvents := List.length (new_Set (map (fun e => get e "event") (events this)));
     summary_events := events this |}.

(** The listener for [error] events of the window.  [error] is [None] when
    [e.error] is [null] or [undefined], else the [message] of the error
    object; reading [e.error.message] is what throws in the first case,
    before [track] is called. *)
Record errorEvent : Type := mkErrorEvent {
  error : option value;
  filename : value;
  lineno : value;
  colno : value
}.

Definition onError (h : host) (timestamp later : Z) (e : errorEvent)
           (st : analytics * list gtagCall) : completion (analytics * list gtagCall) :=
  match error e with
  | None => Throw "Cannot read properties of null (reading 'message')"
  | Some message =>
      Return (track h timestamp later (Str "javascript_error")
                    [("message", message); ("filename", filename e);
                     ("lineno", lineno e); ("colno", colno e)]
                    st)
  end.

(** The listener for [unhandledrejection]: [reason] is [None] when
    [e.reason] is [null] or [undefined], else what its [toString()] returns. *)
Definition onUnhandledRejection (h : host) (timestamp later : Z) (reason : option string)
           (st : analytics * list gtagCall) : completion (analytics * list gtagCall) :=
  match reason with
  | None => Throw "Cannot read properties of undefined (reading 'toString')"
  | Some text =>
      Return (track h timestamp later (Str "promise_rejection") [("reason", Str text)] st)
  end.

End MedicalAnalytics.

(** ** class SecurityUtils *)

Module SecurityUtils.

Definition sanitizeHTML (str : string) : string :=
  let div := Dom.createElement "div" in
  let div := Dom.set_textContent div str in
  Dom.innerHTML div.

Definition allowedTypes : list string :=
  ["image/jpeg"; "image/png"; "image/gif"; "image/bmp"; "image/tiff"].

Definition maxSize : Z := 16 * 1024 * 1024.

Definition dangerousExtensions : list string :=
  [".exe"; ".bat"; ".cmd"; ".scr"; ".pif"; ".com"].

(** The [for (const ext of dangerousExtensions)] loop: the first extension
    found in the name throws, the end of the array returns. *)
Fixpoint scanExtensions (fileName : string) (exts : list string) : completion bool :=
  match exts with
  | [] => Return true
  | ext :: rest =>
      if includes fileName ext
      then Throw "Potentially dangerous file detected"
      else scanExtensions fileName rest
  end.

Definition secureFileUpload (file : File) : completion bool :=
  if negb (array_includes allowedTypes (type file)) then
    Throw "Invalid file type"
  else if size file >? maxSize then
    Throw "File too large"
  else
    let fileName := toLowerCase (name file) in
    scanExtensions fileName dangerousExtensions.

End SecurityUtils.

(** ** class UIComponents *)

Module UIComponents.

(** A toast element: its identity and its class list. *)
Record toast : Type := mkToast { toast_key : nat; toast_classList : Dom.classList }.

(** The document as far as toasts go: the elements of class toast-container
    in document order, each with the toasts appended to it. *)
Definition toastDoc : Type := list (list toast).

(** The two timer callbacks of [createToast]: the one started with
    [duration], and the one it starts itself with 300 ms. *)
Inductive task : Type :=
| Expire (key : nat)
| Detach (key : nat).

(** The page between two events: the clock, the next element identity, the
    timers in firing order with their due times, the document. *)
Record world : Type := mkWorld {
  clock : Z;
  fresh : nat;
  pending : list (Z * task);
  containers : toastDoc
}.

(** [toast.parentNode] is not null. *)
Definition attached (key : nat) (doc : toastDoc) : bool :=
  existsb (existsb (fun t => Nat.eqb (toast_key t) key)) doc.

(** [toast.classList.remove('show')]. *)
Definition hide (key : nat) (doc : toastDoc) : toastDoc :=
  map (map (fun t => if Nat.eqb (toast_key t) key
                     then mkToast (toast_key t) (Dom.remove (toast_classList t) "show")
                     else t))
      doc.

(** [toast.remove()]. *)
Definition detach (key : nat) (doc : toastDoc) : toastDoc :=
  map (filter (fun t => negb (Nat.eqb (toast_key t) key))) doc.

(** [setTimeout]: the new timer goes after those due no later. *)
Fixpoint schedule (due : Z) (tk : task) (q : list (Z * task)) : list (Z * task) :=
  match q with
  | [] => [(due, tk)]
  | x :: q' => if fst x <=? due then x :: schedule due tk q' else (due, tk) :: q
  end.

(** [createToastContainer]: a new container, appended to the body. *)
Definition createToastContainer (w : world) : world :=
  {| clock := clock w; fresh := fresh w; pending := pending w;
     containers := (containers w ++ [[]])%list |}.

(** [toastContainer.appendChild(toast)], the container being the first of
    the document. *)
Definition appendToFirst (t : toast) (doc : toastDoc) : toastDoc :=
  match doc with
  | [] => []
  | first :: others => (first ++ [t])%list :: others
  end.

(** [createToast(message, type, duration)]; [None] stands for an argument
    left out.  The message only fills the markup of the toast. *)
Definition createToast (type : option string) (duration : option Z) (w : world) : world :=
  let type := match type with Some t => t | None => "info" end in
  let duration := match duration with Some d => d | None => 5000 end in
  let w := match containers w with
           | [] => createToastContainer w
           | _ :: _ => w
           end in
  let key := fresh w in
  let toast :=
    mkToast key ["toast"; "show"; "align-items-center"; "text-white"; "bg-" ++ type;
                 "border-0"] in
  {| clock := clock w;
     fresh := S key;
     pending := schedule (clock w + Z.max 0 duration) (Expire key) (pending w);
     containers := appendToFirst toast (containers w) |}.

(** Running one timer callback, the clock reading its due time. *)
Definition exec (tk : task) (w : world) : world :=
  match tk with
  | Expire key =>
      if attached key (containers w)
      then {| clock := clock w; fresh := fresh w;
              pending := schedule (clock w + 300) (Detach key) (pending w);
              containers := hide key (containers w) |}
      else w
  | Detach key =>
      {| clock := clock w; fresh := fresh w; pending := pending w;
         containers := detach key (containers w) |}
  end.

(** An [Expire] may start one more timer, a [Detach] none: the number of
    callbacks a queue can still lead to. *)
Definition weight (q : list (Z * task)) : nat :=
  fold_right (fun x n => match snd x with Expire _ => 2 | Detach _ => 1 end + n)%nat 0%nat q.

Fixpoint run (fuel : nat) (t : Z) (w : world) : world :=
  match fuel with
  | O => w
  | S fuel' =>
      match pending w with
      | [] => w
      | (due, tk) :: rest =>
          if due <=? t
          then run fuel' t
                   (exec tk {| clock := due; fresh := fresh w; pending := rest;
                               containers := containers w |})
          else w
      end
  end.

(** Let the clock advance to [t], running the timers that fall due. *)
Definition run_until (t : Z) (w : world) : world :=
  let w' := run (weight (pending w)) t w in
  {| clock := Z.max (clock w') t; fresh := fresh w'; pending := pending w';
     containers := containers w' |}.

(** *** Modals

    A modal built by [showModal]: the identity of the node and its [id]
    attribute.  The markup of the modal is not part of the model. *)
Record modalEl : Type := mkModalEl { modal_node : nat; modal_id : string }.

(** The children of the body, the nodes a [bootstrap.Modal] was made for and
    shown, and the nodes that listen for [hidden.bs.modal]. *)
Record modalPage : Type := mkModalPage {
  body : list modalEl;
  shown : list nat;
  hiddenListeners : list nat
}.

(** ['dynamic-modal-' + Date.now()], the clock reading [now]. *)
Definition modalId (now : Z) : string := ("dynamic-modal-" ++ integer_text now)%string.

(** [showModal(title, content, buttons)] on a page where [bootstrap] is
    defined or not; [fresh] is the node [document.createElement] returns.
    The result is the page as the call leaves it, also when it throws. *)
Definition showModal (bootstrap : bool) (now : Z) (fresh : nat) (p : modalPage)
  : modalPage * completion nat :=
  let modal := mkModalEl fresh (modalId now) in
  let p := {| body := (body p ++ [modal])%list; shown := shown p;
              hiddenListeners := hiddenListeners p |} in
  if bootstrap
  then ({| body := body p; shown := (shown p ++ [fresh])%list;
           hiddenListeners := (hiddenListeners p ++ [fresh])%list |},
        Return fresh)
  else (p, Throw "bootstrap is not defined").

(** The toolkit reports [hidden.bs.modal] on a node: the listener, when the
    node has one, runs [modal.remove()]. *)
Definition onHidden (node : nat) (p : modalPage) : modalPage :=
  if existsb (Nat.eqb node) (hiddenListeners p)
  then {| body := filter (fun m => negb (Nat.eqb (modal_node m) node)) (body p);
          shown := shown p; hiddenListeners := hiddenListeners p |}
  else p.

End UIComponents.

(** ** const Utils *)

Module Utils.

Import EventLoop.

Section Wrappers.

(** The argument list of one call of the wrapped function. *)
Variable Args : Type.

(** *** debounce

    [timeout] is the variable of the closure ([None] for [undefined] and
    [null]); [calls] records each invocation of [func] with the time at
    which it happens. *)
Record debounced : Type := mkDebounced {
  timeout : option nat;
  calls : list (Z * Args)
}.

Definition falsy (handle : option nat) : bool :=
  match handle with
  | None => true
  | Some id => Nat.eqb id 0
  end.

Section Debounce.

Variables (wait : Z) (immediate : bool).

(** [const later = () => { timeout = null; if (!immediate) func(...args); }] *)
Definition later (args : Args) (time : Z) (v : debounced) : debounced :=
  {| timeout := None;
     calls := if negb immediate then (calls v ++ [(time, args)])%list else calls v |}.

Definition executedFunction (args : Args) (l : loop debounced) : loop debounced :=
  let callNow := immediate && falsy (timeout (vars l)) in
  let l := clearTimeout (timeout (vars l)) l in
  let (id, l) := setTimeout (later args) wait l in
  let l := set_vars l {| timeout := Some id; calls := calls (vars l) |} in
  if callNow
  then set_vars l {| timeout := timeout (vars l);
                     calls := (calls (vars l) ++ [(now l, args)])%list |}
  else l.

(** The wrapped function is called with [args] at time [t]. *)
Definition debounce_call (l : loop debounced) (c : Z * Args) : loop debounced :=
  executedFunction (snd c) (run_until (fst c) l).

(** [Utils.debounce(func, wait, immediate)] followed by the given calls
    of the function it returns. *)
Definition debounce (script : list (Z * Args)) : loop debounced :=
  fold_left debounce_call script (start {| timeout := None; calls := [] |}).

End Debounce.

(** *** throttle *)
Record throttled : Type := mkThrottled {
  inThrottle : bool;
  invoked : list (Z * Args)
}.

Section Throttle.

Variable limit : Z.

(** [() => inThrottle = false] *)
Definition unlock (time : Z) (v : throttled) : throttled :=
  {| inThrottle := false; invoked := invoked v |}.

Definition throttledFunction (args : Args) (l : loop throttled) : loop throttled :=
  if negb (inThrottle (vars l)) then
    let l := set_vars l {| inThrottle := inThrottle (vars l);
                           invoked := (invoked (vars l) ++ [(now l, args)])%list |} in
    let l := set_vars l {| inThrottle := true; invoked := invoked (vars l) |} in
    snd (setTimeout unlock limit l)
  else l.

Definition throttle_call (l : loop throttled) (c : Z * Args) : loop throttled :=
  throttledFunction (snd c) (run_until (fst c) l).

(** [Utils.throttle(func, limit)] followed by the given calls of the
    function it returns; [inThrottle] starts out [undefined]. *)
Definition throttle (script : list (Z * Args)) : loop throttled :=
  fold_left throttle_call script (start {| inThrottle := false; invoked := [] |}).

End Throttle.

End Wrappers.

(** *** formatBytes *)

Section FormatBytes.

(** As for [MedicalApp.formatFileSize]: the engine's value of
    [Math.floor(Math.log(bytes) / Math.log(k))]. *)
Variable log_floor : Z -> Z -> Z.

Definition sizes : list string :=
  ["Bytes"; "KB"; "MB"; "GB"; "TB"; "PB"; "EB"; "ZB"; "YB"].

(** [decimals] is [None] when the argument is left out. *)
Definition formatBytes (bytes : Z) (decimals : option Z) : completion string :=
  let decimals := match decimals with Some d => d | None => 2 end in
  if bytes =? 0 then Return "0 Bytes"
  else
    let k := 1024 in
    let dm := if decimals <? 0 then 0 else decimals in
    let i := log_floor bytes k in
    match toFixed (divide bytes (pow k i)) dm with
    | Throw message => Throw message
    | Return text => Return (parseFloat_text text ++ " " ++ item sizes i)%string
    end.

End FormatBytes.

Arguments timeout {Args}.
Arguments calls {Args}.
Arguments inThrottle {Args}.
Arguments invoked {Args}.
Arguments later {Args}.
Arguments executedFunction {Args}.
Arguments debounce_call {Args}.
Arguments debounce {Args}.
Arguments unlock {Args}.
Arguments throttledFunction {Args}.
Arguments throttle_call {Args}.
Arguments throttle {Args}.

(** *** copyToClipboard *)

(** The promise a call returns, as far as its state is decided by the call. *)
Inductive promise : Type :=
| Resolved
| Rejected (reason : string).

(** What [document.execCommand('copy')] does: it returns a boolean, or
    throws. *)
Inductive execResult : Type :=
| ExecReturns (ok : bool)
| ExecThrows (err : string).

(** [copyToClipboard(text)].  [clipboard] is the promise
    [navigator.clipboard.writeText] returns, [None] when [navigator.clipboard]
    is missing; [textArea] is the node [document.createElement] returns and
    [body] the children of the body.  The result is the promise with the
    children the call leaves. *)
Definition copyToClipboard (clipboard : option promise) (exec : execResult)
           (textArea : nat) (body : list nat) : promise * list nat :=
  match clipboard with
  | Some p => (p, body)
  | None =>
      let body := (body ++ [textArea])%list in
      let result :=
        match exec with
        | ExecReturns _ => Resolved
        | ExecThrows err => Rejected err
        end in
      (result, filter (fun n => negb (Nat.eqb n textArea)) body)
  end.

End Utils.

(** ** What the properties speak of *)

(** Every ampersand of [out] begins one of the four character references the
    serialiser writes. *)
Fixpoint amp_escaped (out : string) : bool :=
  match out with
  | EmptyString => true
  | String c rest =>
      (if Ascii.eqb c "&"
       then starts_with "amp;" rest || starts_with "lt;" rest
            || starts_with "gt;" rest || starts_with "nbsp;" rest
       else true)
      && amp_escaped rest
  end.

(** The code unit [c] occurs in [s]. *)
Fixpoint occurs (c : ascii) (s : string) : bool :=
  match s with
  | EmptyString => false
  | String d rest => Ascii.eqb c d || occurs c rest
  end.

(** Each call of the list follows the one before it (the first follows
    time [t]) by less than [wait] milliseconds. *)
Fixpoint burst {Args : Type} (wait t : Z) (rest : list (Z * Args)) : bool :=
  match rest with
  | [] => true
  | c :: rest' => (t <=? fst c) && (fst c <? t + wait) && burst wait (fst c) rest'
  end.

(** Between two calls of a burst: one timer is pending, due [wait] after
    the latest call and holding its arguments, and [func] has not run. *)
Definition armed {Args : Type} (wait t : Z) (a : Args) (id n : nat)
  : EventLoop.loop (Utils.debounced Args) :=
  EventLoop.mkLoop t n [EventLoop.mkTimer id (t + wait) (Utils.later false a)]
                   (Utils.mkDebounced Args (Some id) []).

(** The throttle while locked since the call at [t0]: the flag is set and the
    one pending timer will clear it at [t0 + limit]. *)
Definition locked {Args : Type} (limit t0 clock : Z) (log : list (Z * Args)) (id n : nat)
  : EventLoop.loop (Utils.throttled Args) :=
  EventLoop.mkLoop clock n [EventLoop.mkTimer id (t0 + limit) Utils.unlock]
                   (Utils.mkThrottled Args true log).

(** Every call of the list arrives in [[t0, t0 + limit)]. *)
Definition during_lock {Args : Type} (limit t0 : Z) (cs : list (Z * Args)) : bool :=
  forallb (fun c => (t0 <=? fst c) && (fst c <? t0 + limit)) cs.

(** The debounced function between two calls, in general: the one pending
    timer holds the latest call, and [log] is what [func] has received. *)
Definition pending {Args : Type} (immediate : bool) (wait t : Z) (a : Args)
           (log : list (Z * Args)) (id n : nat)
  : EventLoop.loop (Utils.debounced Args) :=
  EventLoop.mkLoop t n [EventLoop.mkTimer id (t + wait) (Utils.later immediate a)]
                   (Utils.mkDebounced Args (Some id) log).

(** Each call of the list follows the one before it (the first follows time
    [t]) by more than [wait] milliseconds. *)
Fixpoint separated {Args : Type} (wait t : Z) (rest : list (Z * Args)) : bool :=
  match rest with
  | [] => true
  | c :: rest' => (t + wait <? fst c) && separated wait (fst c) rest'
  end.

(** The calls of the list come in the order of their times, none before [t]. *)
Fixpoint ordered {Args : Type} (t : Z) (cs : list (Z * Args)) : bool :=
  match cs with
  | [] => true
  | c :: cs' => (t <=? fst c) && ordered (fst c) cs'
  end.

(** Two consecutive entries of the log are at least [limit] apart. *)
Fixpoint spaced {Args : Type} (limit : Z) (log : list (Z * Args)) : bool :=
  match log with
  | [] => true
  | a :: rest =>
      match rest with
      | [] => true
      | b :: _ => (fst a + limit <=? fst b) && spaced limit rest
      end
  end.

(** What holds of the throttle between any two calls: the log is spaced;
    either the lock is off, no timer is pending and the last invocation is at
    least [limit] old, or the lock is on and the one pending timer clears it
    [limit] after the last invocation. *)
Definition throttle_inv {Args : Type} (limit : Z) (l : EventLoop.loop (Utils.throttled Args))
  : Prop :=
  spaced limit (Utils.invoked (EventLoop.vars l)) = true
  /\ ((Utils.inThrottle (EventLoop.vars l) = false /\ EventLoop.queue l = []
       /\ forall pre e, Utils.invoked (EventLoop.vars l) = (pre ++ [e])%list ->
                        fst e + limit <= EventLoop.now l)
      \/ (Utils.inThrottle (EventLoop.vars l) = true
          /\ exists pre e id,
               Utils.invoked (EventLoop.vars l) = (pre ++ [e])%list
               /\ EventLoop.queue l = [EventLoop.mkTimer id (fst e + limit) Utils.unlock])).

(** The timers [initializeProgressBars] has started for the bars from
    position [k] on, whose widths were [widths], the first with handle [id],
    at time [t]. *)
Fixpoint restoreTimers (t : Z) (k id : nat) (widths : list string)
  : list (EventLoop.timer (list string)) :=
  match widths with
  | [] => []
  | w :: rest =>
      EventLoop.mkTimer id (t + 500) (fun _ ws => MedicalApp.set_width k w ws)
      :: restoreTimers t (S k) (S id) rest
  end.

(** Whether [key] is an own property of the object. *)
Definition has_key (o : MedicalAnalytics.object) (key : string) : bool :=
  existsb (fun kv => String.eqb (fst kv) key) o.

(** The record [track] builds before it spreads [data] over it. *)
Definition baseEvent (h : MedicalAnalytics.host) (start timestamp later : Z)
           (event : MedicalAnalytics.value) : MedicalAnalytics.object :=
  [("event", event);
   ("timestamp", MedicalAnalytics.Num timestamp);
   ("sessionDuration", MedicalAnalytics.Num (later - start));
   ("userAgent", MedicalAnalytics.Str (MedicalAnalytics.userAgent h));
   ("url", MedicalAnalytics.Str (MedicalAnalytics.href h))].

(** One call of [track]: the two clock readings, the name, the data. *)
Definition trackCall : Type := (Z * Z * MedicalAnalytics.value * MedicalAnalytics.object)%type.

Definition runTrack (h : MedicalAnalytics.host)
           (st : MedicalAnalytics.analytics * list MedicalAnalytics.gtagCall) (c : trackCall)
  : MedicalAnalytics.analytics * list MedicalAnalytics.gtagCall :=
  let '(timestamp, later, event, data) := c in
  MedicalAnalytics.track h timestamp later event data st.

(** One call of [createToast]: the time of the call, the type, the duration. *)
Definition toastCall : Type := (Z * option string * option Z)%type.

Definition showToast (w : UIComponents.world) (c : toastCall) : UIComponents.world :=
  let '(t, type, duration) := c in
  UIComponents.createToast type duration (UIComponents.run_until t w).

(** The toast is taken out of the document by someone else (its close
    button). *)
Definition dismiss (key : nat) (w : UIComponents.world) : UIComponents.world :=
  UIComponents.mkWorld (UIComponents.clock w) (UIComponents.fresh w) (UIComponents.pending w)
                       (UIComponents.detach key (UIComponents.containers w)).

(** What the observer callback does to one element, entry by entry. *)
Definition revealOne (entries : list (nat * bool)) (el : Dom.htmlElement) : Dom.htmlElement :=
  fold_left (fun (el : Dom.htmlElement) (entry : nat * bool) =>
               if snd entry && Nat.eqb (Dom.el_id el) (fst entry)
               then Dom.mkHtmlElement (Dom.el_id el)
                                      (Dom.add (Dom.el_classList el) "animate-in")
                                      (Dom.data_bs_toggle el)
               else el)
            entries el.

(** * Properties *)

(** ** Helper facts on the JavaScript library functions *)

Lemma array_includes_In (xs : list string) (x : string) :
  array_includes xs x = true <-> In x xs.
Proof.
  unfold array_includes. rewrite existsb_exists. split.
  - intros [y [Hy Heq]]. apply String.eqb_eq in Heq. now subst.
  - intros H. exists x. split; [assumption | apply String.eqb_refl].
Qed.

Lemma array_includes_not_In (xs : list string) (x : string) :
  array_includes xs x = false <-> ~ In x xs.
Proof.
  rewrite <- array_includes_In. destruct (array_includes xs x); split; congruence.
Qed.

Lemma starts_with_app (t s : string) :
  starts_with t s = true <-> exists post, s = t ++ post.
Proof.
  revert s. induction t as [|c t IH]; intros s; simpl.
  - split; [intros _; now exists s | reflexivity].
  - destruct s as [|d s].
    + split; [discriminate | intros [post H]; discriminate].
    + rewrite andb_true_iff, Ascii.eqb_eq, IH. split.
      * intros [-> [post ->]]. now exists post.
      * intros [post H]. injection H as -> ->. split; [reflexivity | now exists post].
Qed.

(** [includes s t] holds exactly when [t] is a substring of [s], at any
    position. *)
Lemma includes_substring (s t : string) :
  includes s t = true <-> exists pre post, s = pre ++ t ++ post.
Proof.
  induction s as [|c s IH]; cbn [includes].
  - destruct (starts_with t EmptyString) eqn:Hp.
    + apply starts_with_app in Hp as [post Hp]. split; [|reflexivity].
      intros _. now exists EmptyString, post.
    + split; [discriminate|]. intros [pre [post H]].
      destruct pre; simpl in H.
      * assert (starts_with t EmptyString = true) by (apply starts_with_app; now exists post).
        congruence.
      * discriminate.
  - destruct (starts_with t (String c s)) eqn:Hp.
    + apply starts_with_app in Hp as [post Hp]. split; [|reflexivity].
      intros _. now exists EmptyString, post.
    + rewrite IH. split.
      * intros [pre [post H]]. exists (String c pre), post. simpl. now rewrite H.
      * intros [pre [post H]]. destruct pre as [|d pre]; simpl in H.
        -- assert (starts_with t (String c s) = true)
             by (apply starts_with_app; now exists post).
           congruence.
        -- exists pre, post. congruence.
Qed.

Lemma scanExtensions_throw (fileName : string) (exts : list string) :
  SecurityUtils.scanExtensions fileName exts = Throw "Potentially dangerous file detected"
  <-> exists ext, In ext exts /\ includes fileName ext = true.
Proof.
  induction exts as [|e exts IH]; simpl.
  - split; [discriminate | intros [ext [[] _]]].
  - destruct (includes fileName e) eqn:He.
    + split; [intros _; exists e; auto | reflexivity].
    + rewrite IH. split.
      * intros [ext [Hin Hinc]]. exists ext. auto.
      * intros [ext [[<-|Hin] Hinc]]; [congruence | exists ext; auto].
Qed.

Lemma scanExtensions_return (fileName : string) (exts : list string) :
  SecurityUtils.scanExtensions fileName exts = Return true
  <-> forall ext, In ext exts -> includes fileName ext = false.
Proof.
  induction exts as [|e exts IH]; simpl.
  - split; [intros _ ext [] | reflexivity].
  - destruct (includes fileName e) eqn:He.
    + split; [discriminate | intros H; specialize (H e (or_introl eq_refl)); congruence].
    + rewrite IH. split.
      * intros H ext [<-|Hin]; auto.
      * intros H ext Hin. apply H. now right.
Qed.

(** ** File validation *)

(** C1. [MedicalApp.validateImage] returns [true] exactly for a file whose
    MIME type is one of image/jpeg, image/jpg, image/png, image/gif,
    image/bmp, image/tiff and whose size is at most 16 MiB; a type outside the
    list throws the "Invalid file type" error and a listed type above 16 MiB
    throws the "File too large" error.  In particular application/pdf throws,
    image/png returns true up to 16 MiB, and image/png of 17 MiB throws. *)
Theorem validateImage_spec :
  (forall f : File,
      MedicalApp.validateImage f = Return true
      <-> In (type f) ["image/jpeg"; "image/jpg"; "image/png"; "image/gif";
                       "image/bmp"; "image/tiff"]
          /\ size f <= 16 * 1024 * 1024)
  /\ (forall f : File,
      MedicalApp.validateImage f
      = Throw "Invalid file type. Please upload an image file (JPEG, PNG, GIF, BMP, TIFF)"
      <-> ~ In (type f) ["image/jpeg"; "image/jpg"; "image/png"; "image/gif";
                         "image/bmp"; "image/tiff"])
  /\ (forall f : File,
      MedicalApp.validateImage f = Throw "File too large. Maximum size is 16MB"
      <-> In (type f) ["image/jpeg"; "image/jpg"; "image/png"; "image/gif";
                       "image/bmp"; "image/tiff"]
          /\ 16 * 1024 * 1024 < size f)
  /\ (forall (nm : string) (sz : Z),
      MedicalApp.validateImage (mkFile nm "application/pdf" sz)
      = Throw "Invalid file type. Please upload an image file (JPEG, PNG, GIF, BMP, TIFF)")
  /\ (forall (nm : string) (sz : Z),
      MedicalApp.validateImage (mkFile nm "image/png" sz)
      = if sz <=? 16 * 1024 * 1024 then Return true
        else Throw "File too large. Maximum size is 16MB")
  /\ (forall nm : string,
      MedicalApp.validateImage (mkFile nm "image/png" (17 * 1024 * 1024))
      = Throw "File too large. Maximum size is 16MB").
Proof.
  change ["image/jpeg"; "image/jpg"; "image/png"; "image/gif"; "image/bmp"; "image/tiff"]
    with MedicalApp.validTypes.
  assert (Hcases : forall f : File,
             (array_includes MedicalApp.validTypes (type f) = false
              /\ MedicalApp.validateImage f
                 = Throw "Invalid file type. Please upload an image file (JPEG, PNG, GIF, BMP, TIFF)")
             \/ (array_includes MedicalApp.validTypes (type f) = true
                 /\ 16 * 1024 * 1024 < size f
                 /\ MedicalApp.validateImage f = Throw "File too large. Maximum size is 16MB")
             \/ (array_includes MedicalApp.validTypes (type f) = true
                 /\ size f <= 16 * 1024 * 1024
                 /\ MedicalApp.validateImage f = Return true)).
  { intros f. unfold MedicalApp.validateImage, MedicalApp.maxSize.
    destruct (array_includes MedicalApp.validTypes (type f)); cbn [negb]; [|now left].
    right. destruct (Z.gtb_spec (size f) (16 * 1024 * 1024)); [left | right];
      repeat split; try reflexivity; lia. }
  split; [|split; [|split; [|split; [|split]]]].
  - intros f. rewrite <- array_includes_In.
    destruct (Hcases f) as [[Hin Hv]|[[Hin [Hsz Hv]]|[Hin [Hsz Hv]]]]; rewrite Hv, Hin;
      split; try discriminate; try tauto; intros [? ?]; try discriminate; lia.
  - intros f. rewrite <- array_includes_not_In.
    destruct (Hcases f) as [[Hin Hv]|[[Hin [Hsz Hv]]|[Hin [Hsz Hv]]]]; rewrite Hv, Hin;
      split; try discriminate; try tauto.
  - intros f. rewrite <- array_includes_In.
    destruct (Hcases f) as [[Hin Hv]|[[Hin [Hsz Hv]]|[Hin [Hsz Hv]]]]; rewrite Hv, Hin;
      split; try discriminate; try tauto; intros [? ?]; try discriminate; lia.
  - reflexivity.
  - intros nm sz. unfold MedicalApp.validateImage, MedicalApp.maxSize.
    cbn [type size array_includes MedicalApp.validTypes existsb String.eqb Ascii.eqb
         Bool.eqb orb andb negb].
    destruct (Z.gtb_spec sz (16 * 1024 * 1024)); destruct (Z.leb_spec sz (16 * 1024 * 1024));
      try reflexivity; lia.
  - reflexivity.
Qed.

(** The three outcomes of [secureFileUpload], by the test that decides. *)
Lemma secureFileUpload_cases (f : File) :
  (array_includes SecurityUtils.allowedTypes (type f) = false
   /\ SecurityUtils.secureFileUpload f = Throw "Invalid file type")
  \/ (array_includes SecurityUtils.allowedTypes (type f) = true
      /\ 16 * 1024 * 1024 < size f
      /\ SecurityUtils.secureFileUpload f = Throw "File too large")
  \/ (array_includes SecurityUtils.allowedTypes (type f) = true
      /\ size f <= 16 * 1024 * 1024
      /\ SecurityUtils.secureFileUpload f
         = SecurityUtils.scanExtensions (toLowerCase (name f))
             SecurityUtils.dangerousExtensions).
Proof.
  unfold SecurityUtils.secureFileUpload, SecurityUtils.maxSize.
  destruct (array_includes SecurityUtils.allowedTypes (type f)); cbn [negb]; [|now left].
  right. destruct (Z.gtb_spec (size f) (16 * 1024 * 1024)); [left | right];
    repeat split; try reflexivity; lia.
Qed.

(** C2. For a file whose MIME type is in [secureFileUpload]'s allow-list and
    whose size is at most 16 MiB, the call throws exactly when the lowercased
    file name contains one of .exe .bat .cmd .scr .pif .com as a substring at
    any position, and returns [true] otherwise.  In particular report.exe and
    my.exe.png throw and photo.png is accepted. *)
Theorem secureFileUpload_denylist :
  (forall f : File,
      In (type f) SecurityUtils.allowedTypes ->
      size f <= 16 * 1024 * 1024 ->
      (SecurityUtils.secureFileUpload f = Throw "Potentially dangerous file detected"
       <-> exists ext pre post,
             In ext [".exe"; ".bat"; ".cmd"; ".scr"; ".pif"; ".com"]
             /\ toLowerCase (name f) = (pre ++ ext ++ post)%string)
      /\ (SecurityUtils.secureFileUpload f = Return true
          <-> ~ exists ext pre post,
                In ext [".exe"; ".bat"; ".cmd"; ".scr"; ".pif"; ".com"]
                /\ toLowerCase (name f) = (pre ++ ext ++ post)%string)
      /\ (SecurityUtils.secureFileUpload f = Throw "Potentially dangerous file detected"
          \/ SecurityUtils.secureFileUpload f = Return true))
  /\ (forall (ty : string) (sz : Z),
      In ty SecurityUtils.allowedTypes -> sz <= 16 * 1024 * 1024 ->
      SecurityUtils.secureFileUpload (mkFile "report.exe" ty sz)
      = Throw "Potentially dangerous file detected"
      /\ SecurityUtils.secureFileUpload (mkFile "my.exe.png" ty sz)
         = Throw "Potentially dangerous file detected"
      /\ SecurityUtils.secureFileUpload (mkFile "photo.png" ty sz) = Return true).
Proof.
  change [".exe"; ".bat"; ".cmd"; ".scr"; ".pif"; ".com"]
    with SecurityUtils.dangerousExtensions.
  split.
  - intros f Hty Hsz. apply array_includes_In in Hty.
    destruct (secureFileUpload_cases f) as [[Hin _]|[[_ [Hgt _]]|[_ [_ Hv]]]];
      [congruence | lia |].
    rewrite Hv.
    assert (Hsub : (exists ext pre post,
                       In ext SecurityUtils.dangerousExtensions
                       /\ toLowerCase (name f) = (pre ++ ext ++ post)%string)
                   <-> exists ext, In ext SecurityUtils.dangerousExtensions
                                   /\ includes (toLowerCase (name f)) ext = true).
    { split.
      - intros [ext [pre [post [Hin Heq]]]]. exists ext. split; [assumption|].
        apply includes_substring. now exists pre, post.
      - intros [ext [Hin Hinc]]. apply includes_substring in Hinc as [pre [post Heq]].
        now exists ext, pre, post. }
    rewrite Hsub, <- scanExtensions_throw.
    destruct (SecurityUtils.scanExtensions (toLowerCase (name f))
                SecurityUtils.dangerousExtensions) as [[|]|msg] eqn:Hscan.
    + repeat split; try discriminate; try congruence; auto.
    + exfalso. clear -Hscan.
      induction SecurityUtils.dangerousExtensions as [|e l IH]; simpl in Hscan;
        [discriminate|]. destruct (includes _ e); [discriminate | auto].
    + assert (msg = "Potentially dangerous file detected") as ->.
      { clear -Hscan.
        induction SecurityUtils.dangerousExtensions as [|e l IH]; simpl in Hscan;
          [discriminate|]. destruct (includes _ e); [congruence | auto]. }
      repeat split; try discriminate; try congruence; auto.
  - intros ty sz Hty Hsz. apply array_includes_In in Hty.
    unfold SecurityUtils.secureFileUpload, SecurityUtils.maxSize. cbn [type size name].
    rewrite Hty. cbn [negb].
    destruct (Z.gtb_spec sz (16 * 1024 * 1024)); [lia|].
    repeat split; reflexivity.
Qed.

(** The general part of C2 at the png file named my.exe.png. *)
Lemma secureFileUpload_denylist_witness :
  SecurityUtils.secureFileUpload (mkFile "my.exe.png" "image/png" 2048)
  = Throw "Potentially dangerous file detected"
  <-> exists ext pre post,
        In ext [".exe"; ".bat"; ".cmd"; ".scr"; ".pif"; ".com"]
        /\ toLowerCase "my.exe.png" = (pre ++ ext ++ post)%string.
Proof.
  apply (proj1 secureFileUpload_denylist (mkFile "my.exe.png" "image/png" 2048)).
  - cbn. tauto.
  - cbn. lia.
Defined.

(** C8 as stated fails: an image/jpg file of 1 KiB with a harmless name is
    rejected, because image/jpg is not in [secureFileUpload]'s list. *)
Lemma secureFileUpload_jpg_rejected :
  size (mkFile "photo.jpg" "image/jpg" 1024) <= 16 * 1024 * 1024
  /\ SecurityUtils.scanExtensions (toLowerCase "photo.jpg")
       SecurityUtils.dangerousExtensions = Return true
  /\ SecurityUtils.secureFileUpload (mkFile "photo.jpg" "image/jpg" 1024)
     = Throw "Invalid file type".
Proof.
  repeat split; try reflexivity. cbn. lia.
Qed.

(** C8, amended.  [secureFileUpload]'s allow-list is image/jpeg, image/png,
    image/gif, image/bmp, image/tiff: a file of at most 16 MiB whose lowercased
    name contains no denylisted extension is accepted exactly when its type is
    one of these five, and a file of type image/jpg throws "Invalid file
    type". *)
Theorem secureFileUpload_allow_list (f : File) :
  size f <= 16 * 1024 * 1024 ->
  (forall ext, In ext SecurityUtils.dangerousExtensions ->
               includes (toLowerCase (name f)) ext = false) ->
  (SecurityUtils.secureFileUpload f = Return true
   <-> In (type f) ["image/jpeg"; "image/png"; "image/gif"; "image/bmp"; "image/tiff"])
  /\ (type f = "image/jpg" ->
      SecurityUtils.secureFileUpload f = Throw "Invalid file type").
Proof.
  intros Hsz Hname.
  change ["image/jpeg"; "image/png"; "image/gif"; "image/bmp"; "image/tiff"]
    with SecurityUtils.allowedTypes.
  rewrite <- array_includes_In.
  destruct (secureFileUpload_cases f) as [[Hin Hv]|[[_ [Hgt _]]|[Hin [_ Hv]]]];
    [| lia |].
  - rewrite Hv, Hin. split; [split; discriminate | reflexivity].
  - apply scanExtensions_return in Hname. rewrite Hv, Hname, Hin.
    split; [tauto|]. intros Hjpg. rewrite Hjpg in Hin. discriminate.
Qed.

Lemma secureFileUpload_allow_list_witness :
  (SecurityUtils.secureFileUpload (mkFile "scan.png" "image/png" 4096) = Return true
   <-> In "image/png" ["image/jpeg"; "image/png"; "image/gif"; "image/bmp"; "image/tiff"])
  /\ ("image/png" = "image/jpg" ->
      SecurityUtils.secureFileUpload (mkFile "scan.png" "image/png" 4096)
      = Throw "Invalid file type").
Proof.
  apply (secureFileUpload_allow_list (mkFile "scan.png" "image/png" 4096)).
  - cbn. lia.
  - intros ext Hin. cbn in Hin.
    repeat (destruct Hin as [<-|Hin]; [reflexivity|]). destruct Hin.
Defined.

(** ** HTML escaping *)

Lemma sanitizeHTML_escape_string (s : string) :
  SecurityUtils.sanitizeHTML s = Dom.escape_string s.
Proof.
  unfold SecurityUtils.sanitizeHTML, Dom.innerHTML. destruct s as [|c s]; [reflexivity|].
  cbn [Dom.set_textContent Dom.childNodes map String.concat Dom.serialize]. reflexivity.
Qed.

Lemma escape_string_app (s1 s2 : string) :
  Dom.escape_string (s1 ++ s2) = (Dom.escape_string s1 ++ Dom.escape_string s2)%string.
Proof.
  induction s1 as [|c s1 IH]; [reflexivity|].
  cbn [String.append Dom.escape_string]. rewrite IH.
  generalize (Dom.escape_unit c) as e. intros e.
  induction e as [|d e IHe]; [reflexivity|]. simpl. now rewrite IHe.
Qed.

(** The image of one code unit: one of the four references, or the unit
    itself when it is none of the four replaced characters. *)
Lemma escape_unit_cases (c : ascii) :
  (c = "&"%char /\ Dom.escape_unit c = "&amp;")
  \/ (c = Dom.nbsp /\ Dom.escape_unit c = "&nbsp;")
  \/ (c = "<"%char /\ Dom.escape_unit c = "&lt;")
  \/ (c = ">"%char /\ Dom.escape_unit c = "&gt;")
  \/ (c <> "&"%char /\ c <> Dom.nbsp /\ c <> "<"%char /\ c <> ">"%char
      /\ Dom.escape_unit c = String c EmptyString).
Proof.
  unfold Dom.escape_unit.
  destruct (Ascii.eqb_spec c "&"); [now left|].
  destruct (Ascii.eqb_spec c Dom.nbsp); [now right; left|].
  destruct (Ascii.eqb_spec c "<"); [now right; right; left|].
  destruct (Ascii.eqb_spec c ">"); [now right; right; right; left|].
  now right; right; right; right.
Qed.

(** C3 as stated fails: the quotation mark and the apostrophe leave
    [sanitizeHTML] exactly as they entered it. *)
Lemma sanitizeHTML_keeps_quotes :
  SecurityUtils.sanitizeHTML (String Dom.quot (String "'" EmptyString))
  = String Dom.quot (String "'" EmptyString)
  /\ SecurityUtils.sanitizeHTML "it's" = "it's"
  /\ occurs "'" (SecurityUtils.sanitizeHTML "it's") = true
  /\ occurs Dom.quot (SecurityUtils.sanitizeHTML (String Dom.quot EmptyString)) = true.
Proof.
  repeat split; reflexivity.
Qed.

(** C3, amended.  [sanitizeHTML] works code unit by code unit: & becomes
    &amp;, < becomes &lt;, > becomes &gt; (and the no-break space &nbsp;),
    every other unit, the quotation mark and the apostrophe among them, is
    copied.  So the output holds no raw < or >, and each & in it begins one of
    these references. *)
Theorem sanitizeHTML_escapes :
  (forall s1 s2 : string,
      SecurityUtils.sanitizeHTML (s1 ++ s2)
      = (SecurityUtils.sanitizeHTML s1 ++ SecurityUtils.sanitizeHTML s2)%string)
  /\ SecurityUtils.sanitizeHTML "&" = "&amp;"
  /\ SecurityUtils.sanitizeHTML "<" = "&lt;"
  /\ SecurityUtils.sanitizeHTML ">" = "&gt;"
  /\ SecurityUtils.sanitizeHTML (String Dom.nbsp EmptyString) = "&nbsp;"
  /\ (forall c : ascii,
      c <> "&"%char -> c <> "<"%char -> c <> ">"%char -> c <> Dom.nbsp ->
      SecurityUtils.sanitizeHTML (String c EmptyString) = String c EmptyString)
  /\ (forall s : string,
      occurs "<" (SecurityUtils.sanitizeHTML s) = false
      /\ occurs ">" (SecurityUtils.sanitizeHTML s) = false
      /\ amp_escaped (SecurityUtils.sanitizeHTML s) = true).
Proof.
  split; [|split; [|split; [|split; [|split; [|split]]]]]; try reflexivity.
  - intros s1 s2. rewrite !sanitizeHTML_escape_string. apply escape_string_app.
  - intros c Hamp Hlt Hgt Hnb. rewrite sanitizeHTML_escape_string.
    cbn [Dom.escape_string].
    destruct (escape_unit_cases c) as [[? _]|[[? _]|[[? _]|[[? _]|[_ [_ [_ [_ ->]]]]]]]];
      try contradiction. reflexivity.
  - intros s. rewrite sanitizeHTML_escape_string.
    induction s as [|c s [IHlt [IHgt IHamp]]]; [now repeat split|].
    cbn [Dom.escape_string].
    destruct (escape_unit_cases c)
      as [[-> ->]|[[-> ->]|[[-> ->]|[[-> ->]|[Hamp [Hnb [Hlt [Hgt ->]]]]]]]].
    1-4: cbn [String.append occurs amp_escaped starts_with Ascii.eqb Bool.eqb orb andb];
      rewrite ?IHlt, ?IHgt, ?IHamp; repeat split; reflexivity.
    cbn [String.append occurs amp_escaped].
    apply Ascii.eqb_neq in Hamp, Hlt, Hgt.
    rewrite Hamp, (Ascii.eqb_sym "<"%char c), (Ascii.eqb_sym ">"%char c), Hlt, Hgt.
    rewrite IHlt, IHgt, IHamp. repeat split; reflexivity.
Qed.

(** ** Responsive layout classes *)

Lemma contains_add (cl : Dom.classList) (token t : string) :
  Dom.contains (Dom.add cl token) t = String.eqb t token || Dom.contains cl t.
Proof.
  unfold Dom.add. destruct (Dom.contains cl token) eqn:Hc.
  - destruct (String.eqb_spec t token) as [->|]; [now rewrite Hc | reflexivity].
  - unfold Dom.contains. rewrite existsb_app. cbn [existsb]. rewrite orb_false_r.
    apply orb_comm.
Qed.

Lemma contains_remove (cl : Dom.classList) (token t : string) :
  Dom.contains (Dom.remove cl token) t = negb (String.eqb t token) && Dom.contains cl t.
Proof.
  unfold Dom.contains, Dom.remove. induction cl as [|c cl IH]; cbn [filter existsb].
  - now rewrite andb_false_r.
  - destruct (String.eqb_spec token c) as [->|Hne]; cbn [negb existsb].
    + rewrite IH. destruct (String.eqb t c); reflexivity.
    + rewrite IH. destruct (String.eqb_spec t c) as [->|]; cbn [orb].
      * destruct (String.eqb_spec c token); [congruence | reflexivity].
      * reflexivity.
Qed.

(** C9. After [handleResponsiveLayout] the body carries mobile-layout exactly
    when the width is below 768 and tablet-layout exactly when the width is
    in [768, 992), whatever classes it carried before; the two are never
    present together, and every other class is left as it was.  Widths 500,
    800 and 1200 give mobile only, tablet only and neither. *)
Theorem handleResponsiveLayout_classes :
  (forall p : Dom.page,
      let body' := Dom.body_classList (MedicalApp.handleResponsiveLayout p) in
      Dom.contains body' "mobile-layout" = (Dom.innerWidth p <? 768)
      /\ Dom.contains body' "tablet-layout"
         = (768 <=? Dom.innerWidth p) && (Dom.innerWidth p <? 992)
      /\ Dom.contains body' "mobile-layout" && Dom.contains body' "tablet-layout" = false)
  /\ (forall (p : Dom.page) (t : string),
      t <> "mobile-layout" -> t <> "tablet-layout" ->
      Dom.contains (Dom.body_classList (MedicalApp.handleResponsiveLayout p)) t
      = Dom.contains (Dom.body_classList p) t)
  /\ (forall (body : Dom.classList) (els : list Dom.htmlElement) (b : option Dom.toolkit),
      let at_width w :=
        Dom.body_classList (MedicalApp.handleResponsiveLayout (Dom.mkPage w body els b)) in
      (Dom.contains (at_width 500) "mobile-layout" = true
       /\ Dom.contains (at_width 500) "tablet-layout" = false)
      /\ (Dom.contains (at_width 800) "tablet-layout" = true
          /\ Dom.contains (at_width 800) "mobile-layout" = false)
      /\ (Dom.contains (at_width 1200) "mobile-layout" = false
          /\ Dom.contains (at_width 1200) "tablet-layout" = false)).
Proof.
  assert (Hmain : forall p : Dom.page,
             let body' := Dom.body_classList (MedicalApp.handleResponsiveLayout p) in
             Dom.contains body' "mobile-layout" = (Dom.innerWidth p <? 768)
             /\ Dom.contains body' "tablet-layout"
                = (768 <=? Dom.innerWidth p) && (Dom.innerWidth p <? 992)).
  { intros p. unfold MedicalApp.handleResponsiveLayout. cbn [Dom.body_classList].
    rewrite Z.geb_leb.
    destruct (Dom.innerWidth p <? 768) eqn:Hm;
      destruct ((768 <=? Dom.innerWidth p) && (Dom.innerWidth p <? 992)) eqn:Ht;
      rewrite ?contains_add, ?contains_remove; cbn; rewrite ?contains_add, ?contains_remove;
      cbn; split; reflexivity. }
  split; [|split].
  - intros p. destruct (Hmain p) as [Hm Ht]. cbv zeta. rewrite Hm, Ht.
    repeat split.
    destruct (Z.ltb_spec (Dom.innerWidth p) 768); [|reflexivity].
    destruct (Z.leb_spec 768 (Dom.innerWidth p)); [lia | reflexivity].
  - intros p t Hm Ht. unfold MedicalApp.handleResponsiveLayout. cbn [Dom.body_classList].
    apply String.eqb_neq in Hm, Ht.
    destruct (Dom.innerWidth p <? 768);
      destruct ((Dom.innerWidth p >=? 768) && (Dom.innerWidth p <? 992));
      repeat (rewrite ?contains_add, ?contains_remove, ?Hm, ?Ht; cbn [negb orb andb]);
      reflexivity.
  - intros body els b. cbv zeta.
    pose proof (Hmain (Dom.mkPage 500 body els b)) as [H1 H2].
    pose proof (Hmain (Dom.mkPage 800 body els b)) as [H3 H4].
    pose proof (Hmain (Dom.mkPage 1200 body els b)) as [H5 H6].
    cbv zeta in *. rewrite H1, H2, H3, H4, H5, H6. repeat split.
Qed.

(** ** Optional Bootstrap global *)

Lemma closeModals_without_bootstrap (modals : list Dom.htmlElement) :
  MedicalApp.closeModals None modals
  = match modals with
    | [] => Return []
    | _ :: _ => Throw "bootstrap is not defined"
    end.
Proof.
  destruct modals; reflexivity.
Qed.

(** With the global present the listener never throws. *)
Lemma onKeydown_with_bootstrap (key : string) (target : Dom.htmlElement) (p : Dom.page)
      (b : Dom.toolkit) :
  Dom.bootstrap p = Some b ->
  exists effects, MedicalApp.onKeydown key target p = Return effects.
Proof.
  intros Hb. unfold MedicalApp.onKeydown. rewrite Hb.
  assert (Hloop : forall ms, exists e, MedicalApp.closeModals (Some b) ms = Return e).
  { induction ms as [|m ms [e IH]]; cbn [MedicalApp.closeModals]; [now eexists|].
    rewrite IH. now eexists. }
  destruct (String.eqb key "Escape").
  - destruct (Hloop (Dom.openModals p)) as [e ->].
    destruct (_ && _); now eexists.
  - destruct (_ && _); now eexists.
Qed.

(** C10 fails on the code.  On a page without the [bootstrap] global,
    [initializeComponents] skips its tooltip block and returns, but the
    keydown listener reads [bootstrap.Modal] without a guard: as soon as one
    element carries both classes modal and show, pressing Escape throws
    "bootstrap is not defined". *)
Theorem onKeydown_escape_unguarded (p : Dom.page) (modal target : Dom.htmlElement) :
  Dom.bootstrap p = None ->
  In modal (Dom.elements p) ->
  Dom.contains (Dom.el_classList modal) "modal" = true ->
  Dom.contains (Dom.el_classList modal) "show" = true ->
  MedicalApp.initializeComponents p = Return []
  /\ MedicalApp.onKeydown "Escape" target p = Throw "bootstrap is not defined".
Proof.
  intros Hb Hin Hmodal Hshow. split.
  - unfold MedicalApp.initializeComponents. now rewrite Hb.
  - unfold MedicalApp.onKeydown. rewrite Hb, closeModals_without_bootstrap.
    cbn [String.eqb Ascii.eqb Bool.eqb andb].
    assert (Hopen : In modal (Dom.openModals p)).
    { unfold Dom.openModals. apply filter_In. split; [assumption|].
      now rewrite Hmodal, Hshow. }
    destruct (Dom.openModals p); [destruct Hopen | reflexivity].
Qed.

(** The failing page: one open modal, no toolkit. *)
Lemma onKeydown_escape_unguarded_witness :
  let dialog := Dom.mkHtmlElement 1 ["modal"; "show"] None in
  let p := Dom.mkPage 1200 [] [dialog] None in
  MedicalApp.initializeComponents p = Return []
  /\ MedicalApp.onKeydown "Escape" dialog p = Throw "bootstrap is not defined".
Proof.
  apply (onKeydown_escape_unguarded
           (Dom.mkPage 1200 [] [Dom.mkHtmlElement 1 ["modal"; "show"] None] None)
           (Dom.mkHtmlElement 1 ["modal"; "show"] None)).
  - reflexivity.
  - cbn. left. reflexivity.
  - reflexivity.
  - reflexivity.
Defined.

(** ** Debounce and throttle *)

Lemma last_cons_default {A : Type} (rest : list A) :
  forall c d : A, last (c :: rest) d = last rest c.
Proof.
  induction rest as [|x rest IH]; intros c d; [reflexivity|].
  change (last (c :: x :: rest) d) with (last (x :: rest) d).
  now rewrite !IH.
Qed.

Section DebounceFacts.

Import EventLoop.

Context {Args : Type}.
Variable wait : Z.
Hypothesis wait_nonneg : 0 <= wait.

Lemma debounce_first_call (t : Z) (a : Args) :
  0 <= t ->
  Utils.debounce_call wait false (start (Utils.mkDebounced Args None [])) (t, a)
  = armed wait t a 1 2.
Proof.
  intros Ht. unfold Utils.debounce_call, Utils.executedFunction, run_until, start, armed.
  cbn [fst snd queue vars fire now next_id Utils.timeout clearTimeout andb setTimeout
       enqueue set_vars Utils.calls].
  now rewrite (Z.max_r 0 t), (Z.max_r 0 wait) by lia.
Qed.

Lemma debounce_next_call (t : Z) (a : Args) (id n : nat) (c : Z * Args) :
  t <= fst c < t + wait ->
  Utils.debounce_call wait false (armed wait t a id n) c = armed wait (fst c) (snd c) n (S n).
Proof.
  intros Hc. unfold Utils.debounce_call, Utils.executedFunction, run_until, armed.
  cbn [queue vars fire now next_id due].
  destruct (Z.leb_spec (t + wait) (fst c)); [lia|].
  cbn [fst snd queue vars fire now next_id Utils.timeout clearTimeout andb setTimeout
       enqueue set_vars Utils.calls filter timer_id].
  rewrite Nat.eqb_refl. cbn [negb enqueue].
  now rewrite (Z.max_r t (fst c)), (Z.max_r 0 wait) by lia.
Qed.

Lemma debounce_burst (rest : list (Z * Args)) :
  forall (t : Z) (a : Args) (id n : nat),
    burst wait t rest = true ->
    exists id' n',
      fold_left (Utils.debounce_call wait false) rest (armed wait t a id n)
      = armed wait (fst (last rest (t, a))) (snd (last rest (t, a))) id' n'.
Proof.
  induction rest as [|c rest IH]; intros t a id n Hb.
  - now exists id, n.
  - cbn [burst] in Hb. apply andb_true_iff in Hb as [Hc Hrest].
    apply andb_true_iff in Hc as [Hlo Hhi].
    apply Z.leb_le in Hlo. apply Z.ltb_lt in Hhi.
    cbn [fold_left]. rewrite debounce_next_call by lia.
    destruct (IH (fst c) (snd c) n (S n) Hrest) as [id' [n' Heq]].
    exists id', n'. rewrite Heq.
    rewrite last_cons_default. now destruct c.
Qed.

Lemma armed_run_until (t : Z) (a : Args) (id n : nat) (u : Z) :
  Utils.calls (vars (run_until u (armed wait t a id n)))
  = if u <? t + wait then [] else [(t + wait, a)].
Proof.
  unfold run_until, armed. cbn [queue vars fire due].
  destruct (Z.leb_spec (t + wait) u); destruct (Z.ltb_spec u (t + wait)); try lia;
    reflexivity.
Qed.

End DebounceFacts.



Section ThrottleFacts.

Import EventLoop.

Context {Args : Type}.
Variable limit : Z.
Hypothesis limit_nonneg : 0 <= limit.

Lemma throttle_first_call (t : Z) (a : Args) :
  0 <= t ->
  Utils.throttle_call limit (start (Utils.mkThrottled Args false [])) (t, a)
  = locked limit t t [(t, a)] 1 2.
Proof.
  intros Ht. unfold Utils.throttle_call, Utils.throttledFunction, run_until, start, locked.
  cbn [fst snd queue vars fire now next_id Utils.inThrottle Utils.invoked negb setTimeout
       enqueue set_vars app].
  now rewrite (Z.max_r 0 t), (Z.max_r 0 limit) by lia.
Qed.

Lemma throttle_locked_call (t0 clock : Z) (log : list (Z * Args)) (id n : nat)
      (c : Z * Args) :
  fst c < t0 + limit ->
  Utils.throttle_call limit (locked limit t0 clock log id n) c
  = locked limit t0 (Z.max clock (fst c)) log id n.
Proof.
  intros Hc. unfold Utils.throttle_call, Utils.throttledFunction, run_until, locked.
  cbn [queue vars fire now next_id due].
  destruct (Z.leb_spec (t0 + limit) (fst c)); [lia|]. reflexivity.
Qed.

Lemma throttle_locked_calls (t0 : Z) (log : list (Z * Args)) (id n : nat)
      (cs : list (Z * Args)) :
  forall clock : Z,
    clock <= t0 + limit ->
    during_lock limit t0 cs = true ->
    exists clock',
      clock' <= t0 + limit
      /\ fold_left (Utils.throttle_call limit) cs (locked limit t0 clock log id n)
         = locked limit t0 clock' log id n.
Proof.
  induction cs as [|c cs IH]; intros clock Hclock Hcs.
  - now exists clock.
  - cbn [during_lock forallb] in Hcs. apply andb_true_iff in Hcs as [Hc Hcs].
    apply andb_true_iff in Hc as [Hlo Hhi]. apply Z.ltb_lt in Hhi.
    cbn [fold_left]. rewrite throttle_locked_call by assumption.
    apply IH; [lia | exact Hcs].
Qed.

Lemma throttle_unlocked_call (t0 clock : Z) (log : list (Z * Args)) (id n : nat)
      (c : Z * Args) :
  clock <= fst c -> t0 + limit <= fst c ->
  Utils.throttle_call limit (locked limit t0 clock log id n) c
  = locked limit (fst c) (fst c) (log ++ [(fst c, snd c)]) n (S n).
Proof.
  intros Hclock Hc. unfold Utils.throttle_call, Utils.throttledFunction, run_until, locked.
  cbn [queue vars fire now next_id due].
  destruct (Z.leb_spec (t0 + limit) (fst c)); [|lia].
  cbn [fst snd queue vars fire now next_id Utils.inThrottle Utils.invoked negb setTimeout
       enqueue set_vars callback Utils.unlock].
  now rewrite (Z.max_r clock (fst c)), (Z.max_r 0 limit) by lia.
Qed.

End ThrottleFacts.



(** ** Byte counts *)

Lemma pow_1024_pos (i : Z) : 0 <= i -> 0 < 1024 ^ i.
Proof.
  intros Hi. apply Z.pow_pos_nonneg; lia.
Qed.

(** The integer logarithm brackets the count between two consecutive powers
    of 1024. *)
Lemma exact_log_floor_spec (b : Z) :
  0 < b ->
  0 <= exact_log_floor b 1024
  /\ 1024 ^ exact_log_floor b 1024 <= b < 1024 ^ (exact_log_floor b 1024 + 1).
Proof.
  intros Hb. unfold exact_log_floor. change (Z.log2 1024) with 10.
  pose proof (Z.log2_spec b Hb) as [Hlo Hhi].
  pose proof (Z.log2_nonneg b) as Hl.
  pose proof (Z.div_mod (Z.log2 b) 10 ltac:(lia)) as Hdm.
  pose proof (Z.mod_pos_bound (Z.log2 b) 10 ltac:(lia)) as Hr.
  assert (Hq : 0 <= Z.log2 b / 10) by (apply Z.div_pos; lia).
  change 1024 with (2 ^ 10). rewrite <- !Z.pow_mul_r by lia.
  split; [assumption|]. split.
  - apply Z.le_trans with (2 ^ Z.log2 b); [|assumption].
    apply Z.pow_le_mono_r; lia.
  - apply Z.lt_le_trans with (2 ^ Z.succ (Z.log2 b)); [assumption|].
    apply Z.pow_le_mono_r; lia.
Qed.

(** An index whose power of 1024 does not exceed a count below [1024 ^ n]
    lies below [n]. *)
Lemma index_below (b i n : Z) :
  0 <= n -> 1024 ^ i <= b -> b < 1024 ^ n -> i < n.
Proof.
  intros Hn Hlo Hhi. destruct (Z.lt_ge_cases i n) as [|Hge]; [assumption|].
  exfalso. assert (1024 ^ n <= 1024 ^ i) by (apply Z.pow_le_mono_r; lia). lia.
Qed.

Lemma nearest_rounds (b D d : Z) :
  0 < D -> Z.abs (2 * (nearest (b, D) d * D - b * 10 ^ d)) <= D.
Proof.
  intros HD. unfold nearest. cbn [fst snd].
  pose proof (Z.mul_div_le (2 * b * 10 ^ d + D) (2 * D) ltac:(lia)).
  pose proof (Z.mul_succ_div_gt (2 * b * 10 ^ d + D) (2 * D) ltac:(lia)).
  lia.
Qed.

Lemma item_in_range (array : list string) (i : Z) :
  0 <= i < Z.of_nat (List.length array) ->
  exists unit, nth_error array (Z.to_nat i) = Some unit /\ item array i = unit.
Proof.
  intros Hi. unfold item. destruct (Z.ltb_spec i 0); [lia|].
  destruct (nth_error array (Z.to_nat i)) as [unit|] eqn:Hnth.
  - exists unit. split; [reflexivity|]. now apply nth_error_nth.
  - apply nth_error_None in Hnth. lia.
Qed.

(** Past the table: at [2 * 1024^9] bytes the integer logarithm is 9, one
    past the last entry of [sizes], and undefined is printed for the unit. *)
Lemma formatBytes_beyond_table :
  exact_log_floor (2 ^ 91) 1024 = 9
  /\ nth_error Utils.sizes 9 = None
  /\ Utils.formatBytes exact_log_floor (2 ^ 91) None = Return "2 undefined".
Proof.
  repeat split; vm_compute; reflexivity.
Qed.

(** C7 as stated fails: at 2 TiB [formatFileSize] runs off its four-entry
    table while [formatBytes] prints TB. *)
Lemma formatFileSize_differs_at_2TiB :
  exact_log_floor (2 ^ 41) 1024 = 4
  /\ MedicalApp.formatFileSize exact_log_floor (2 ^ 41) = "2 undefined"
  /\ Utils.formatBytes exact_log_floor (2 ^ 41) (Some 2) = Return "2 TB".
Proof.
  repeat split; vm_compute; reflexivity.
Qed.

Lemma append_inj_l (a x y : string) : (a ++ x)%string = (a ++ y)%string -> x = y.
Proof.
  induction a as [|c a IH]; cbn [String.append]; intros H; [assumption|].
  injection H as H. now apply IH.
Qed.

(** The two unit tables give the same text at an index exactly when the
    index is in neither or in both with the same unit: below 4, or above 8. *)
Lemma item_tables_agree (i : Z) :
  item Utils.sizes i = item ["Bytes"; "KB"; "MB"; "GB"] i <-> i < 4 \/ 8 < i.
Proof.
  unfold item. destruct (Z.ltb_spec i 0) as [Hneg|Hpos]; [split; [lia | reflexivity]|].
  destruct (Z.lt_ge_cases 8 i) as [Hbig|Hsmall].
  - rewrite !nth_overflow by (cbn [List.length Utils.sizes]; lia).
    split; [intros _; now right | reflexivity].
  - assert (Hi : i = Z.of_nat (Z.to_nat i)) by lia.
    destruct (Z.to_nat i) as [|[|[|[|[|[|[|[|[|n]]]]]]]]]; cbn [nth Utils.sizes];
      (split; [intros H; try discriminate H; lia | intros H; try reflexivity; lia]).
Qed.

(** What the two formatters return for a count other than 0: the same
    number, each with the unit its own table gives. *)
Lemma format_nonzero (log_floor : Z -> Z -> Z) (b : Z) :
  b <> 0 ->
  exists number : string,
    Utils.formatBytes log_floor b (Some 2)
    = Return (number ++ " " ++ item Utils.sizes (log_floor b 1024))%string
    /\ MedicalApp.formatFileSize log_floor b
       = (number ++ " " ++ item ["Bytes"; "KB"; "MB"; "GB"] (log_floor b 1024))%string.
Proof.
  intros Hb. unfold Utils.formatBytes, MedicalApp.formatFileSize.
  destruct (Z.eqb_spec b 0); [contradiction|].
  change (2 <? 0) with false. cbv iota. unfold toFixed.
  change ((2 <? 0) || (100 <? 2)) with false. cbv iota.
  change (Z.to_nat 2) with 2%nat. eexists. split; reflexivity.
Qed.

(** C7, amended.  For a count [b] from 0 up, [formatFileSize(b)] and
    [formatBytes(b, 2)] return the same string exactly when [b] is 0 or the
    unit index both compute, by the same expression, is below 4 or above 8:
    for an index from 4 to 8 (TB to YB) [formatFileSize] prints undefined
    where [formatBytes] prints the unit.  [formatBytes(b)] is
    [formatBytes(b, 2)].  In particular the two agree for every count below
    [1024^4] at which the computed index does not overshoot the count
    ([1024^i <= b]). *)
Theorem formatFileSize_agrees_iff (log_floor : Z -> Z -> Z) (b : Z) :
  0 <= b ->
  (Utils.formatBytes log_floor b (Some 2) = Return (MedicalApp.formatFileSize log_floor b)
   <-> b = 0 \/ log_floor b 1024 < 4 \/ 8 < log_floor b 1024)
  /\ Utils.formatBytes log_floor b None = Utils.formatBytes log_floor b (Some 2)
  /\ (b < 1024 ^ 4 ->
      (0 < b -> 1024 ^ log_floor b 1024 <= b) ->
      Utils.formatBytes log_floor b (Some 2)
      = Return (MedicalApp.formatFileSize log_floor b)).
Proof.
  intros Hpos.
  assert (Hiff : Utils.formatBytes log_floor b (Some 2)
                 = Return (MedicalApp.formatFileSize log_floor b)
                 <-> b = 0 \/ log_floor b 1024 < 4 \/ 8 < log_floor b 1024).
  { destruct (Z.eq_dec b 0) as [->|Hb]; [split; [now left | reflexivity]|].
    destruct (format_nonzero log_floor b Hb) as [number [-> ->]].
    rewrite <- item_tables_agree. split.
    - intros H. injection H as H. apply append_inj_l in H.
      apply (append_inj_l " ") in H. now right.
    - intros [H|H]; [contradiction | now rewrite H]. }
  split; [exact Hiff|]. split; [reflexivity|].
  intros Hb Hlog. apply Hiff.
  destruct (Z.eq_dec b 0) as [->|Hne]; [now left|].
  right. left. apply (index_below b _ 4); [lia | apply Hlog; lia | lia].
Qed.

(** The amended C7 at 123456789 bytes, with the integer logarithm for the
    engine's: both print 117.74 MB. *)
Lemma formatFileSize_agrees_iff_witness :
  Utils.formatBytes exact_log_floor 123456789 (Some 2) = Return "117.74 MB"
  /\ Utils.formatBytes exact_log_floor 123456789 (Some 2)
     = Return (MedicalApp.formatFileSize exact_log_floor 123456789).
Proof.
  split; [reflexivity|].
  apply (proj2 (proj2 (formatFileSize_agrees_iff exact_log_floor 123456789 ltac:(lia)))).
  - cbn. lia.
  - intros _. vm_compute. discriminate.
Defined.

(** * Further properties of the script *)

(** ** Strings *)

Lemma append_assoc (a b c : string) : ((a ++ b) ++ c)%string = (a ++ b ++ c)%string.
Proof.
  induction a as [|x a IH]; [reflexivity|]. cbn [String.append]. now rewrite IH.
Qed.

Lemma append_length (a b : string) :
  String.length (a ++ b) = (String.length a + String.length b)%nat.
Proof.
  induction a as [|x a IH]; [reflexivity|]. cbn [String.append String.length].
  now rewrite IH.
Qed.

Lemma toLowerCase_app (a b : string) :
  toLowerCase (a ++ b) = (toLowerCase a ++ toLowerCase b)%string.
Proof.
  induction a as [|x a IH]; [reflexivity|]. cbn [String.append toLowerCase].
  now rewrite IH.
Qed.

(** ** The two validators together *)

(** X1. A file that [SecurityUtils.secureFileUpload] accepts is accepted by
    [MedicalApp.validateImage] as well: the stricter check implies the
    laxer one, for every file. *)
Theorem secureFileUpload_implies_validateImage (f : File) :
  SecurityUtils.secureFileUpload f = Return true ->
  MedicalApp.validateImage f = Return true.
Proof.
  intros Hsec.
  destruct (secureFileUpload_cases f) as [[_ Hv]|[[_ [_ Hv]]|[Hin [Hsz _]]]];
    [congruence | congruence |].
  apply array_includes_In in Hin.
  assert (Hvalid : array_includes MedicalApp.validTypes (type f) = true).
  { apply array_includes_In. cbn in Hin |- *. tauto. }
  unfold MedicalApp.validateImage, MedicalApp.maxSize. rewrite Hvalid. cbn [negb].
  destruct (Z.gtb_spec (size f) (16 * 1024 * 1024)); [lia | reflexivity].
Qed.

Lemma secureFileUpload_implies_validateImage_witness :
  MedicalApp.validateImage (mkFile "scan.png" "image/png" 4096) = Return true.
Proof.
  apply (secureFileUpload_implies_validateImage (mkFile "scan.png" "image/png" 4096)).
  reflexivity.
Defined.

(** X2. A name rejected as dangerous stays rejected when anything is written
    before or after it: no prefix or suffix hides a denylisted extension. *)
Theorem secureFileUpload_decorated_name (f : File) (pre post : string) :
  SecurityUtils.secureFileUpload f = Throw "Potentially dangerous file detected" ->
  SecurityUtils.secureFileUpload (mkFile (pre ++ name f ++ post) (type f) (size f))
  = Throw "Potentially dangerous file detected".
Proof.
  intros Hf.
  destruct (secureFileUpload_cases f) as [[_ Hv]|[[_ [_ Hv]]|[Hin [Hsz Hv]]]];
    [congruence | congruence |].
  rewrite Hv in Hf. apply scanExtensions_throw in Hf as [ext [Hext Hinc]].
  apply includes_substring in Hinc as [a [b Heq]].
  unfold SecurityUtils.secureFileUpload, SecurityUtils.maxSize. cbn [type size name].
  rewrite Hin. cbn [negb].
  destruct (Z.gtb_spec (size f) (16 * 1024 * 1024)); [lia|].
  apply scanExtensions_throw. exists ext. split; [assumption|].
  apply includes_substring.
  exists (toLowerCase pre ++ a)%string, (b ++ toLowerCase post)%string.
  rewrite !toLowerCase_app, Heq, !append_assoc. reflexivity.
Qed.

Lemma secureFileUpload_decorated_name_witness :
  SecurityUtils.secureFileUpload
    (mkFile ("2024-" ++ "REPORT.EXE" ++ ".png") "image/png" 2048)
  = Throw "Potentially dangerous file detected".
Proof.
  apply (secureFileUpload_decorated_name (mkFile "REPORT.EXE" "image/png" 2048)
           "2024-" ".png").
  reflexivity.
Defined.

(** ** More on HTML escaping *)

Lemma escape_string_length (s : string) :
  (String.length s <= String.length (Dom.escape_string s))%nat.
Proof.
  induction s as [|c s IH]; [apply Nat.le_refl|].
  cbn [Dom.escape_string]. rewrite append_length.
  destruct (escape_unit_cases c) as [[_ ->]|[[_ ->]|[[_ ->]|[[_ ->]|[_ [_ [_ [_ ->]]]]]]]];
    cbn [String.length]; lia.
Qed.

(** X3. [sanitizeHTML] never shortens its input, and returns it unchanged
    exactly when it holds none of the four replaced characters (the
    ampersand, the two angle brackets, the no-break space). *)
Theorem sanitizeHTML_fixed_points (s : string) :
  (String.length s <= String.length (SecurityUtils.sanitizeHTML s))%nat
  /\ (SecurityUtils.sanitizeHTML s = s
      <-> occurs "&" s = false /\ occurs "<" s = false /\ occurs ">" s = false
          /\ occurs Dom.nbsp s = false).
Proof.
  rewrite sanitizeHTML_escape_string. split; [apply escape_string_length|].
  induction s as [|c s IH]; [now repeat split|].
  cbn [Dom.escape_string occurs].
  destruct (escape_unit_cases c)
    as [[-> ->]|[[-> ->]|[[-> ->]|[[-> ->]|[Hamp [Hnb [Hlt [Hgt ->]]]]]]]].
  1-4: split;
    [ intros H; cbn [String.append] in H; unfold Dom.nbsp in H; try discriminate H;
      injection H as H;
      pose proof (escape_string_length s) as Hlen; rewrite <- H in Hlen at 1;
      rewrite ?append_length in Hlen; cbn [String.length] in Hlen; lia
    | cbn; intros [? [? [? ?]]]; discriminate ].
  cbn [String.append].
  apply not_eq_sym, Ascii.eqb_neq in Hamp, Hnb, Hlt, Hgt.
  rewrite Hamp, Hnb, Hlt, Hgt. cbn [orb]. rewrite <- IH.
  split; [intros H; now injection H | intros ->; reflexivity].
Qed.

(** X4. [sanitizeHTML] loses nothing: two different strings never escape to
    the same markup. *)
Theorem sanitizeHTML_injective (s1 s2 : string) :
  SecurityUtils.sanitizeHTML s1 = SecurityUtils.sanitizeHTML s2 <-> s1 = s2.
Proof.
  split; [|now intros ->].
  rewrite !sanitizeHTML_escape_string. revert s2.
  induction s1 as [|c1 s1 IH]; intros [|c2 s2]; cbn [Dom.escape_string]; intros H.
  - reflexivity.
  - destruct (escape_unit_cases c2) as [[_ E]|[[_ E]|[[_ E]|[[_ E]|[_ [_ [_ [_ E]]]]]]]];
      rewrite E in H; discriminate.
  - destruct (escape_unit_cases c1) as [[_ E]|[[_ E]|[[_ E]|[[_ E]|[_ [_ [_ [_ E]]]]]]]];
      rewrite E in H; discriminate.
  - destruct (escape_unit_cases c1)
      as [[-> E1]|[[-> E1]|[[-> E1]|[[-> E1]|[Hamp1 [_ [_ [_ E1]]]]]]]];
      destruct (escape_unit_cases c2)
        as [[-> E2]|[[-> E2]|[[-> E2]|[[-> E2]|[Hamp2 [_ [_ [_ E2]]]]]]]];
      rewrite ?E1, ?E2 in H; cbn [String.append] in H; unfold Dom.nbsp in *;
      try discriminate;
      try (injection H as H; f_equal; now apply IH);
      try (injection H as Hc H; congruence).
    injection H as Hc H. subst c2. f_equal. now apply IH.
Qed.

(** ** More on the layout classes *)

Lemma add_present (cl : Dom.classList) (token : string) :
  Dom.contains cl token = true -> Dom.add cl token = cl.
Proof.
  intros H. unfold Dom.add. now rewrite H.
Qed.

Lemma remove_absent (cl : Dom.classList) (token : string) :
  Dom.contains cl token = false -> Dom.remove cl token = cl.
Proof.
  unfold Dom.contains, Dom.remove. induction cl as [|c cl IH]; [reflexivity|].
  cbn [existsb filter]. intros H. apply orb_false_iff in H as [Hc Hcl].
  rewrite Hc. cbn [negb]. now rewrite IH.
Qed.

Lemma add_NoDup (cl : Dom.classList) (token : string) :
  NoDup cl -> NoDup (Dom.add cl token).
Proof.
  intros H. unfold Dom.add. destruct (Dom.contains cl token) eqn:Hc; [assumption|].
  apply NoDup_app; [assumption | repeat constructor; intros [] |].
  intros x Hx [<-|[]]. apply array_includes_In in Hx.
  unfold array_includes, Dom.contains in *. congruence.
Qed.

Lemma remove_NoDup (cl : Dom.classList) (token : string) :
  NoDup cl -> NoDup (Dom.remove cl token).
Proof.
  apply NoDup_filter.
Qed.

(** X5. [handleResponsiveLayout] is idempotent: a second resize event at the
    same width leaves the page exactly as the first one made it. *)
Theorem handleResponsiveLayout_idempotent (p : Dom.page) :
  MedicalApp.handleResponsiveLayout (MedicalApp.handleResponsiveLayout p)
  = MedicalApp.handleResponsiveLayout p.
Proof.
  unfold MedicalApp.handleResponsiveLayout.
  cbn [Dom.innerWidth Dom.body_classList Dom.elements Dom.bootstrap]. f_equal.
  set (body := Dom.body_classList p).
  destruct (Dom.innerWidth p <? 768) eqn:Hm;
    destruct ((Dom.innerWidth p >=? 768) && (Dom.innerWidth p <? 992)) eqn:Ht.
  - rewrite (add_present (Dom.add (Dom.add body "mobile-layout") "tablet-layout")
               "mobile-layout")
      by (rewrite !contains_add; reflexivity).
    apply add_present. rewrite contains_add. reflexivity.
  - rewrite (add_present (Dom.remove (Dom.add body "mobile-layout") "tablet-layout")
               "mobile-layout")
      by (rewrite contains_remove, contains_add; reflexivity).
    apply remove_absent. rewrite contains_remove. reflexivity.
  - rewrite (remove_absent (Dom.add (Dom.remove body "mobile-layout") "tablet-layout")
               "mobile-layout")
      by (rewrite contains_add, contains_remove; reflexivity).
    apply add_present. rewrite contains_add. reflexivity.
  - rewrite (remove_absent (Dom.remove (Dom.remove body "mobile-layout") "tablet-layout")
               "mobile-layout")
      by (rewrite !contains_remove; reflexivity).
    apply remove_absent. rewrite contains_remove. reflexivity.
Qed.

(** X6. [handleResponsiveLayout] keeps the body's class list a set: when no
    class is listed twice before the call, none is listed twice after it. *)
Theorem handleResponsiveLayout_NoDup (p : Dom.page) :
  NoDup (Dom.body_classList p) ->
  NoDup (Dom.body_classList (MedicalApp.handleResponsiveLayout p)).
Proof.
  intros H. unfold MedicalApp.handleResponsiveLayout. cbn [Dom.body_classList].
  destruct (Dom.innerWidth p <? 768);
    destruct ((Dom.innerWidth p >=? 768) && (Dom.innerWidth p <? 992));
    auto using add_NoDup, remove_NoDup.
Qed.

Lemma handleResponsiveLayout_NoDup_witness :
  NoDup (Dom.body_classList
           (MedicalApp.handleResponsiveLayout
              (Dom.mkPage 800 ["dark"; "mobile-layout"] [] None))).
Proof.
  apply (handleResponsiveLayout_NoDup (Dom.mkPage 800 ["dark"; "mobile-layout"] [] None)).
  cbn. repeat constructor; cbn; intuition discriminate.
Defined.

(** ** More on the keydown listener *)

Lemma closeModals_with_bootstrap (b : Dom.toolkit) (modals : list Dom.htmlElement) :
  MedicalApp.closeModals (Some b) modals
  = Return (map (fun m => Dom.ModalHide (Dom.el_id m))
                (filter (Dom.Modal_getInstance b) modals)).
Proof.
  induction modals as [|m modals IH]; [reflexivity|].
  cbn [MedicalApp.closeModals filter]. rewrite IH.
  destruct (Dom.Modal_getInstance b m); reflexivity.
Qed.

Lemma closeModalsWith_cases (bootstrap : Dom.bootstrapGlobal)
      (modals : list Dom.htmlElement) :
  match bootstrap, modals with
  | Dom.Toolkit b, _ =>
      MedicalApp.closeModalsWith bootstrap modals
      = Return (map (fun m => Dom.ModalHide (Dom.el_id m))
                    (filter (Dom.Modal_getInstance b) modals))
  | _, [] => MedicalApp.closeModalsWith bootstrap modals = Return []
  | _, _ :: _ => exists message, MedicalApp.closeModalsWith bootstrap modals = Throw message
  end.
Proof.
  destruct bootstrap as [| |b].
  - destruct modals; [reflexivity | now eexists].
  - destruct modals; [reflexivity | now eexists].
  - induction modals as [|m modals IH]; [reflexivity|].
    cbn [MedicalApp.closeModalsWith filter]. rewrite IH.
    destruct (Dom.Modal_getInstance b m); reflexivity.
Qed.

(** X7. When the keydown listener throws.  For any event target, HTML
    element or not, and any value of the identifier [bootstrap], the listener
    throws in exactly these situations: the key is Escape, at least one
    element carries both classes modal and show, and [bootstrap] is not
    defined or is not the toolkit; or the key is Enter and the target has no
    [classList], or has the class custom-btn but no [click] method.  Every
    other event makes it return.  On an HTML element and a page whose
    [bootstrap] is the toolkit or not defined, this is the listener of
    [onKeydown]. *)
Theorem onKeydownEvent_throws_iff (key : string) (target : Dom.eventTarget)
        (bootstrap : Dom.bootstrapGlobal) (p : Dom.page) :
  ((exists message, MedicalApp.onKeydownEvent key target bootstrap p = Throw message)
   <-> (key = "Escape" /\ Dom.openModals p <> []
        /\ (bootstrap = Dom.NotDefined \/ bootstrap = Dom.NotAToolkit))
       \/ (key = "Enter"
           /\ (Dom.target_classList target = None
               \/ exists classList,
                    Dom.target_classList target = Some classList
                    /\ Dom.contains classList "custom-btn" = true
                    /\ Dom.target_click target = false)))
  /\ (forall el : Dom.htmlElement,
      MedicalApp.onKeydownEvent key (Dom.elementTarget el) (Dom.globalOf (Dom.bootstrap p)) p
      = MedicalApp.onKeydown key el p).
Proof.
  split.
  - unfold MedicalApp.onKeydownEvent.
    destruct (String.eqb_spec key "Escape") as [->|Hesc].
    + (* Escape: only the loop over the open modals can throw *)
      change (String.eqb "Escape" "Enter") with false.
      pose proof (closeModalsWith_cases bootstrap (Dom.openModals p)) as Hloop.
      destruct bootstrap as [| |b]; destruct (Dom.openModals p) as [|m ms];
        cbv beta iota in Hloop;
        try match type of Hloop with ex _ => destruct Hloop as [message Hloop] end;
        rewrite Hloop.
      * split; [intros [x H]; discriminate|].
        intros [[_ [H _]]|[H _]]; [congruence | discriminate].
      * split; [|intros _; now eexists].
        intros _. left. repeat split; [discriminate | now left].
      * split; [intros [x H]; discriminate|].
        intros [[_ [H _]]|[H _]]; [congruence | discriminate].
      * split; [|intros _; now eexists].
        intros _. left. repeat split; [discriminate | now right].
      * split; [intros [x H]; discriminate|].
        intros [[_ [H _]]|[H _]]; [congruence | discriminate].
      * split; [intros [x H]; discriminate|].
        intros [[_ [_ [H|H]]]|[H _]]; discriminate.
    + destruct (String.eqb_spec key "Enter") as [->|Hent].
      * (* Enter: only the target can make it throw *)
        destruct (Dom.target_classList target) as [cl|] eqn:Hcl.
        -- destruct (Dom.contains cl "custom-btn") eqn:Hbtn.
           ++ destruct (Dom.target_click target) eqn:Hclick.
              ** split; [intros [x H]; discriminate|].
                 intros [[H _]|[_ [H|[cl' [Hcl' [_ H]]]]]]; discriminate.
              ** split; [|intros _; now eexists].
                 intros _. right. split; [reflexivity|]. right. now exists cl.
           ++ split; [intros [x H]; discriminate|].
              intros [[H _]|[_ [H|[cl' [Hcl' [H _]]]]]]; try discriminate.
              injection Hcl' as <-. congruence.
        -- split; [|intros _; now eexists].
           intros _. right. split; [reflexivity | now left].
      * split; [intros [x H]; discriminate|].
        intros [[H _]|[H _]]; congruence.
  - intros el. unfold MedicalApp.onKeydownEvent, MedicalApp.onKeydown.
    cbn [Dom.elementTarget Dom.target_classList Dom.target_click Dom.target_id].
    assert (Hloop : forall ms,
               MedicalApp.closeModalsWith (Dom.globalOf (Dom.bootstrap p)) ms
               = MedicalApp.closeModals (Dom.bootstrap p) ms).
    { intros ms. destruct (Dom.bootstrap p) as [b|]; cbn [Dom.globalOf].
      - induction ms as [|m ms IH]; [reflexivity|].
        cbn [MedicalApp.closeModalsWith MedicalApp.closeModals]. now rewrite IH.
      - destruct ms; reflexivity. }
    rewrite Hloop.
    destruct (if String.eqb key "Escape"
              then MedicalApp.closeModals (Dom.bootstrap p) (Dom.openModals p)
              else Return []) as [hidden|message]; [|reflexivity].
    destruct (String.eqb key "Enter"); [|reflexivity].
    cbn [andb]. destruct (Dom.contains (Dom.el_classList el) "custom-btn"); reflexivity.
Qed.

(** X8. With the [bootstrap] global defined, Escape hides exactly the open
    modals that have a modal instance, each once and in document order, and
    touches nothing else. *)
Theorem onKeydown_escape_hides_open_modals
        (b : Dom.toolkit) (target : Dom.htmlElement) (p : Dom.page) :
  Dom.bootstrap p = Some b ->
  MedicalApp.onKeydown "Escape" target p
  = Return (map (fun m => Dom.ModalHide (Dom.el_id m))
                (filter (fun el => Dom.contains (Dom.el_classList el) "modal"
                                   && Dom.contains (Dom.el_classList el) "show"
                                   && Dom.Modal_getInstance b el)
                        (Dom.elements p))).
Proof.
  intros Hb. unfold MedicalApp.onKeydown. rewrite Hb, closeModals_with_bootstrap.
  cbn [String.eqb Ascii.eqb Bool.eqb andb]. unfold Dom.openModals. do 2 f_equal.
  induction (Dom.elements p) as [|el els IH]; [reflexivity|].
  cbn [filter].
  destruct (Dom.contains (Dom.el_classList el) "modal"
            && Dom.contains (Dom.el_classList el) "show"); cbn [filter andb];
    now rewrite IH.
Qed.

Lemma onKeydown_escape_hides_open_modals_witness :
  let b := Dom.mkToolkit (fun el => Nat.eqb (Dom.el_id el) 2) in
  let els := [Dom.mkHtmlElement 1 ["modal"; "show"] None;
              Dom.mkHtmlElement 2 ["modal"; "fade"; "show"] None;
              Dom.mkHtmlElement 3 ["modal"] None] in
  MedicalApp.onKeydown "Escape" (Dom.mkHtmlElement 1 ["modal"; "show"] None)
                       (Dom.mkPage 1200 [] els (Some b))
  = Return (map (fun m => Dom.ModalHide (Dom.el_id m))
                (filter (fun el => Dom.contains (Dom.el_classList el) "modal"
                                   && Dom.contains (Dom.el_classList el) "show"
                                   && Dom.Modal_getInstance b el)
                        els)).
Proof.
  apply (onKeydown_escape_hides_open_modals
           (Dom.mkToolkit (fun el => Nat.eqb (Dom.el_id el) 2))).
  reflexivity.
Defined.

(** ** More on debounce *)

Section DebounceMore.

Import EventLoop.

Context {Args : Type}.
Variable wait : Z.
Hypothesis wait_nonneg : 0 <= wait.

Lemma debounce_start_call (immediate : bool) (t : Z) (a : Args) :
  0 <= t ->
  Utils.debounce_call wait immediate (start (Utils.mkDebounced Args None [])) (t, a)
  = pending immediate wait t a (if immediate then [(t, a)] else []) 1 2.
Proof.
  intros Ht. unfold Utils.debounce_call, Utils.executedFunction, run_until, start, pending.
  cbn [fst snd queue vars fire now next_id Utils.timeout clearTimeout setTimeout
       enqueue set_vars Utils.calls Utils.falsy].
  rewrite (Z.max_r 0 t), (Z.max_r 0 wait) by lia.
  destruct immediate; reflexivity.
Qed.

(** A call while the timer is pending replaces the timer and invokes nothing. *)
Lemma debounce_pending_call (immediate : bool) (t : Z) (a : Args)
      (log : list (Z * Args)) (id n : nat) (c : Z * Args) :
  id <> 0%nat -> t <= fst c < t + wait ->
  Utils.debounce_call wait immediate (pending immediate wait t a log id n) c
  = pending immediate wait (fst c) (snd c) log n (S n).
Proof.
  intros Hid Hc. unfold Utils.debounce_call, Utils.executedFunction, run_until, pending.
  cbn [queue vars fire now next_id due].
  destruct (Z.leb_spec (t + wait) (fst c)); [lia|].
  cbn [fst snd queue vars fire now next_id Utils.timeout clearTimeout setTimeout
       enqueue set_vars Utils.calls filter timer_id Utils.falsy].
  rewrite Nat.eqb_refl. cbn [negb enqueue].
  apply Nat.eqb_neq in Hid. rewrite Hid, andb_false_r.
  now rewrite (Z.max_r t (fst c)), (Z.max_r 0 wait) by lia.
Qed.

Lemma debounce_pending_burst (immediate : bool) (rest : list (Z * Args)) :
  forall (t : Z) (a : Args) (log : list (Z * Args)) (id n : nat),
    id <> 0%nat -> n <> 0%nat ->
    burst wait t rest = true ->
    exists id' n',
      id' <> 0%nat /\ n' <> 0%nat
      /\ fold_left (Utils.debounce_call wait immediate) rest
                   (pending immediate wait t a log id n)
         = pending immediate wait (fst (last rest (t, a))) (snd (last rest (t, a)))
                   log id' n'.
Proof.
  induction rest as [|c rest IH]; intros t a log id n Hid Hn Hb.
  - now exists id, n.
  - cbn [burst] in Hb. apply andb_true_iff in Hb as [Hc Hrest].
    apply andb_true_iff in Hc as [Hlo Hhi].
    apply Z.leb_le in Hlo. apply Z.ltb_lt in Hhi.
    cbn [fold_left]. rewrite debounce_pending_call by (assumption || lia).
    destruct (IH (fst c) (snd c) log n (S n) Hn (Nat.neq_succ_0 n) Hrest)
      as [id' [n' [Hid' [Hn' Heq]]]].
    exists id', n'. rewrite Heq, last_cons_default. now destruct c.
Qed.

(** A call after the timer has run: the timer's callback comes first, then
    the call starts a new timer and, when [immediate], invokes [func]. *)
Lemma debounce_quiet_call (immediate : bool) (t : Z) (a : Args)
      (log : list (Z * Args)) (id n : nat) (c : Z * Args) :
  t + wait <= fst c ->
  Utils.debounce_call wait immediate (pending immediate wait t a log id n) c
  = pending immediate wait (fst c) (snd c)
            (if immediate then log ++ [(fst c, snd c)]
             else log ++ [(t + wait, a)])%list n (S n).
Proof.
  intros Hc. unfold Utils.debounce_call, Utils.executedFunction, run_until, pending.
  cbn [queue vars fire now next_id due].
  destruct (Z.leb_spec (t + wait) (fst c)); [|lia].
  cbn [fst snd queue vars fire now next_id Utils.timeout clearTimeout setTimeout
       enqueue set_vars Utils.calls callback Utils.later Utils.falsy app].
  rewrite (Z.max_r t (fst c)), (Z.max_r 0 wait) by lia.
  destruct immediate; reflexivity.
Qed.

End DebounceMore.



Lemma debounce_separated_calls {Args : Type} (wait : Z) (rest : list (Z * Args)) :
  0 <= wait ->
  forall (t : Z) (a : Args) (log : list (Z * Args)) (id n : nat),
    separated wait t rest = true ->
    Utils.calls
      (EventLoop.vars
         (EventLoop.drain
            (fold_left (Utils.debounce_call wait false) rest (pending false wait t a log id n))))
    = (log ++ map (fun c => (fst c + wait, snd c)) ((t, a) :: rest))%list.
Proof.
  intros Hwait. induction rest as [|c rest IH]; intros t a log id n Hsep.
  - reflexivity.
  - cbn [separated] in Hsep. apply andb_true_iff in Hsep as [Hc Hrest].
    apply Z.ltb_lt in Hc. cbn [fold_left].
    rewrite (debounce_quiet_call wait Hwait false) by lia.
    rewrite IH by assumption. cbn [map fst snd]. rewrite <- app_assoc. reflexivity.
Qed.



(** ** More on throttle *)

Section ThrottleMore.

Import EventLoop.

Context {Args : Type}.
Variable limit : Z.
Hypothesis limit_nonneg : 0 <= limit.

Lemma spaced_snoc (pre : list (Z * Args)) :
  forall e e' : Z * Args,
    spaced limit (pre ++ [e]) = true -> fst e + limit <= fst e' ->
    spaced limit ((pre ++ [e]) ++ [e']) = true.
Proof.
  induction pre as [|x pre IH]; intros e e' Hs He.
  - cbn. apply Z.leb_le in He. now rewrite He.
  - change ((x :: pre) ++ [e])%list with (x :: (pre ++ [e]))%list in *.
    change ((x :: pre ++ [e]) ++ [e'])%list with (x :: ((pre ++ [e]) ++ [e']))%list.
    cbn [spaced] in Hs |- *.
    destruct (pre ++ [e])%list as [|y r] eqn:Hr; [now destruct pre|].
    apply andb_true_iff in Hs as [Hxy Hs]. cbn [app].
    rewrite Hxy. cbn [andb]. rewrite <- Hr in *. change (y :: r ++ [e'])%list
      with ((y :: r) ++ [e'])%list. rewrite <- Hr. now apply IH.
Qed.

Lemma throttle_inv_call (l : loop (Utils.throttled Args)) (c : Z * Args) :
  throttle_inv limit l -> now l <= fst c ->
  throttle_inv limit (Utils.throttle_call limit l c)
  /\ now (Utils.throttle_call limit l c) = fst c
  /\ (Utils.invoked (vars (Utils.throttle_call limit l c)) = Utils.invoked (vars l)
      \/ Utils.invoked (vars (Utils.throttle_call limit l c))
         = (Utils.invoked (vars l) ++ [c])%list).
Proof.
  intros [Hsp Hst] Hnow. destruct l as [clock nid q [flag log]].
  cbn [now vars queue Utils.invoked Utils.inThrottle] in *.
  assert (Hunlocked :
            forall clock' nid',
              clock' <= fst c ->
              (forall pre e, log = (pre ++ [e])%list -> fst e + limit <= clock') ->
              let l' := Utils.throttle_call limit
                          (mkLoop clock' nid' [] (Utils.mkThrottled Args false log)) c in
              throttle_inv limit l' /\ now l' = fst c
              /\ Utils.invoked (vars l') = (log ++ [c])%list).
  { intros clock' nid' Hc Hold.
    unfold Utils.throttle_call, Utils.throttledFunction, run_until, throttle_inv.
    cbn [fst snd queue vars fire now next_id Utils.inThrottle Utils.invoked negb setTimeout
         enqueue set_vars].
    rewrite (Z.max_r clock' (fst c)), (Z.max_r 0 limit) by lia.
    replace (fst c, snd c) with c by now destruct c.
    split; [|split; reflexivity]. split.
    - destruct log as [|x log'] using rev_ind; [reflexivity|].
      apply spaced_snoc; [assumption|]. specialize (Hold log' x eq_refl). lia.
    - right. split; [reflexivity|]. now exists log, c, nid'. }
  destruct Hst as [[-> [-> Hold]]|[-> [pre [e [id [Hlog ->]]]]]].
  - destruct (Hunlocked clock nid Hnow Hold) as [Hinv [Hn Hl]]. cbv zeta in *.
    split; [assumption|]. split; [assumption|]. now right.
  - destruct (Z.leb_spec (fst e + limit) (fst c)) as [Hdue|Hdue].
    + (* the timer runs before the call and clears the lock *)
      assert (Hstep : Utils.throttle_call limit
                        (mkLoop clock nid [mkTimer id (fst e + limit) Utils.unlock]
                                (Utils.mkThrottled Args true log)) c
                      = Utils.throttle_call limit
                          (mkLoop (fst c) nid [] (Utils.mkThrottled Args false log)) c).
      { unfold Utils.throttle_call, run_until.
        cbn [queue vars fire now next_id due callback Utils.unlock Utils.invoked].
        destruct (Z.leb_spec (fst e + limit) (fst c)); [|lia].
        now rewrite (Z.max_r clock (fst c)), Z.max_id by lia. }
      rewrite Hstep.
      destruct (Hunlocked (fst c) nid (Z.le_refl _)) as [Hinv [Hn Hl]].
      { intros pre' e' Heq. rewrite Hlog in Heq. apply app_inj_tail in Heq as [_ <-]. lia. }
      cbv zeta in *. split; [assumption|]. split; [assumption|]. now right.
    + (* still locked: the call is dropped *)
      unfold Utils.throttle_call, Utils.throttledFunction, run_until, throttle_inv.
      cbn [fst snd queue vars fire now next_id due Utils.inThrottle Utils.invoked negb].
      destruct (Z.leb_spec (fst e + limit) (fst c)); [lia|].
      cbn [fst snd queue vars fire now next_id due Utils.inThrottle Utils.invoked negb].
      split; [|split; [lia | now left]].
      split; [assumption|]. right. split; [reflexivity|]. now exists pre, e, id.
Qed.

Lemma throttle_inv_calls (cs : list (Z * Args)) :
  forall l : loop (Utils.throttled Args),
    throttle_inv limit l -> ordered (now l) cs = true ->
    throttle_inv limit (fold_left (Utils.throttle_call limit) cs l)
    /\ exists kept,
         Utils.invoked (vars (fold_left (Utils.throttle_call limit) cs l))
         = (Utils.invoked (vars l) ++ kept)%list
         /\ incl kept cs.
Proof.
  induction cs as [|c cs IH]; intros l Hinv Hord.
  - split; [assumption|]. exists []. split; [now rewrite app_nil_r | intros x []].
  - cbn [ordered] in Hord. apply andb_true_iff in Hord as [Hc Hcs].
    apply Z.leb_le in Hc.
    destruct (throttle_inv_call l c Hinv Hc) as [Hinv' [Hnow' Hlog']].
    cbn [fold_left]. rewrite <- Hnow' in Hcs.
    destruct (IH _ Hinv' Hcs) as [Hfinal [kept [Hkept Hincl]]].
    split; [assumption|]. rewrite Hkept.
    destruct Hlog' as [->| ->].
    + exists kept. split; [reflexivity|]. now apply incl_tl.
    + exists (c :: kept). split; [now rewrite <- app_assoc|].
      apply incl_cons; [now left | now apply incl_tl].
Qed.

End ThrottleMore.



(** ** More on byte counts *)


Lemma nearest_range (b D d : Z) :
  0 < D -> 0 <= d -> D <= b < 1024 * D ->
  10 ^ d <= nearest (b, D) d <= 1024 * 10 ^ d.
Proof.
  intros HD Hd Hb. unfold nearest. cbn [fst snd].
  assert (Hp : 0 < 10 ^ d) by (apply Z.pow_pos_nonneg; lia).
  split.
  - apply Z.div_le_lower_bound; nia.
  - assert (H : (2 * b * 10 ^ d + D) / (2 * D) < 1024 * 10 ^ d + 1); [|lia].
    apply Z.div_lt_upper_bound; nia.
Qed.



(** ** Health indicators *)

Lemma contains_toggle (cl : Dom.classList) (token t : string) (force : bool) :
  Dom.contains (Dom.toggle cl token force) t
  = if String.eqb t token then force else Dom.contains cl t.
Proof.
  unfold Dom.toggle. destruct force; rewrite ?contains_add, ?contains_remove;
    destruct (String.eqb t token); reflexivity.
Qed.

(** X14. After a health check every element marked health-indicator carries
    healthy exactly when the browser is online and the document is complete,
    and unhealthy exactly otherwise, so never both and never neither; its
    other classes are as before.  Elements without the mark are not touched,
    and no element is added, dropped or reordered. *)
Theorem checkSystemHealth_marks (onLine : bool) (readyState : string) (p : Dom.page) :
  let isHealthy := onLine && String.eqb readyState "complete" in
  let p' := MedicalApp.checkSystemHealth onLine readyState p in
  map Dom.el_id (Dom.elements p') = map Dom.el_id (Dom.elements p)
  /\ Forall2 (fun el el' =>
                if Dom.contains (Dom.el_classList el) "health-indicator"
                then Dom.contains (Dom.el_classList el') "healthy" = isHealthy
                     /\ Dom.contains (Dom.el_classList el') "unhealthy" = negb isHealthy
                     /\ forall t, t <> "healthy" -> t <> "unhealthy" ->
                                  Dom.contains (Dom.el_classList el') t
                                  = Dom.contains (Dom.el_classList el) t
                else el' = el)
             (Dom.elements p) (Dom.elements p').
Proof.
  cbv zeta. unfold MedicalApp.checkSystemHealth. cbn [Dom.elements].
  set (isHealthy := onLine && String.eqb readyState "complete").
  induction (Dom.elements p) as [|el els [IHid IH]]; [split; constructor|].
  cbn [map]. split.
  - rewrite IHid. f_equal.
    destruct (Dom.contains (Dom.el_classList el) "health-indicator"); reflexivity.
  - constructor; [|exact IH].
    destruct (Dom.contains (Dom.el_classList el) "health-indicator"); [|reflexivity].
    cbn [Dom.el_classList]. rewrite !contains_toggle. cbn.
    split; [reflexivity|]. split; [reflexivity|].
    intros t Hh Hu. rewrite !contains_toggle.
    apply String.eqb_neq in Hh, Hu. now rewrite Hh, Hu.
Qed.

(** ** Progress bars *)

Lemma set_width_middle (a : list string) (x w : string) (b : list string) :
  MedicalApp.set_width (List.length a) w (a ++ x :: b) = (a ++ w :: b)%list.
Proof.
  induction a as [|y a IH]; [reflexivity|].
  cbn [List.length app MedicalApp.set_width]. now rewrite IH.
Qed.

Lemma enqueue_last {V : Type} (tm : EventLoop.timer V) (q : list (EventLoop.timer V)) :
  Forall (fun x => EventLoop.due x <= EventLoop.due tm) q ->
  EventLoop.enqueue tm q = (q ++ [tm])%list.
Proof.
  induction 1 as [|x q Hx _ IH]; [reflexivity|].
  cbn [EventLoop.enqueue app]. destruct (Z.leb_spec (EventLoop.due x) (EventLoop.due tm));
    [now rewrite IH | lia].
Qed.

Lemma fire_all {V : Type} (u : Z) (q : list (EventLoop.timer V)) :
  Forall (fun x => EventLoop.due x <= u) q ->
  forall v : V,
    EventLoop.fire u q v
    = ([], fold_left (fun v tm => EventLoop.callback tm (EventLoop.due tm) v) q v).
Proof.
  induction 1 as [|x q Hx _ IH]; intros v; [reflexivity|].
  cbn [EventLoop.fire fold_left].
  destruct (Z.leb_spec (EventLoop.due x) u); [apply IH | lia].
Qed.

Lemma fire_none {V : Type} (u : Z) (q : list (EventLoop.timer V)) (v : V) :
  Forall (fun x => u < EventLoop.due x) q ->
  EventLoop.fire u q v = (q, v).
Proof.
  intros H. destruct H as [|x q Hx _]; [reflexivity|].
  cbn [EventLoop.fire]. destruct (Z.leb_spec (EventLoop.due x) u); [lia | reflexivity].
Qed.

Lemma restoreTimers_due (t : Z) (widths : list string) :
  forall k id : nat,
    Forall (fun x => EventLoop.due x = t + 500) (restoreTimers t k id widths).
Proof.
  induction widths as [|w rest IH]; intros k id; constructor; [reflexivity | apply IH].
Qed.

(** The forward pass: every bar is set to 0% and gets its timer. *)
Lemma animateBar_pass (t : Z) (rest : list string) :
  forall (zeros : list string) (id : nat) (q : list (EventLoop.timer (list string))),
    Forall (fun x => EventLoop.due x = t + 500) q ->
    fold_left MedicalApp.animateBar (seq (List.length zeros) (List.length rest))
              (EventLoop.mkLoop t id q (zeros ++ rest)%list)
    = EventLoop.mkLoop t (id + List.length rest)
                       (q ++ restoreTimers t (List.length zeros) id rest)%list
                       (zeros ++ map (fun _ => "0%") rest)%list.
Proof.
  induction rest as [|w rest IH]; intros zeros id q Hq.
  - cbn [List.length seq fold_left restoreTimers map]. now rewrite Nat.add_0_r, !app_nil_r.
  - cbn [List.length seq fold_left].
    assert (Hstep : MedicalApp.animateBar (EventLoop.mkLoop t id q (zeros ++ w :: rest)%list)
                                          (List.length zeros)
                    = EventLoop.mkLoop t (S id)
                        (q ++ [EventLoop.mkTimer id (t + 500)
                                 (fun _ ws => MedicalApp.set_width (List.length zeros) w ws)])%list
                        ((zeros ++ ["0%"]) ++ rest)%list).
    { unfold MedicalApp.animateBar, EventLoop.setTimeout, EventLoop.set_vars.
      cbn [EventLoop.vars EventLoop.now EventLoop.next_id EventLoop.queue snd].
      rewrite app_nth2, Nat.sub_diag by apply Nat.le_refl. cbn [nth].
      rewrite set_width_middle, <- app_assoc. cbn [app].
      change (Z.max 0 500) with 500.
      rewrite enqueue_last; [reflexivity|].
      cbn [EventLoop.due]. eapply Forall_impl; [|exact Hq]. intros x ->. lia. }
    rewrite Hstep.
    replace (S (List.length zeros)) with (List.length (zeros ++ ["0%"])%list)
      by (rewrite length_app; cbn; lia).
    rewrite IH.
    + rewrite length_app. cbn [List.length restoreTimers map].
      rewrite Nat.add_1_r, <- !app_assoc. cbn [app]. f_equal. lia.
    + apply Forall_app. split; [assumption|]. repeat constructor.
Qed.

(** The timers put every width back. *)
Lemma restoreTimers_run (t : Z) (widths : list string) :
  forall (done zeros : list string) (id : nat),
    List.length zeros = List.length widths ->
    fold_left (fun v tm => EventLoop.callback tm (EventLoop.due tm) v)
              (restoreTimers t (List.length done) id widths) (done ++ zeros)%list
    = (done ++ widths)%list.
Proof.
  induction widths as [|w rest IH]; intros done zeros id Hlen.
  - destruct zeros; [reflexivity | discriminate].
  - destruct zeros as [|z zeros]; [discriminate|].
    cbn [restoreTimers fold_left EventLoop.callback].
    rewrite set_width_middle.
    replace (S (List.length done)) with (List.length (done ++ [w])%list)
      by (rewrite length_app; cbn; lia).
    change (done ++ w :: zeros)%list with (done ++ [w] ++ zeros)%list.
    rewrite app_assoc, IH by (cbn in Hlen; lia).
    now rewrite <- app_assoc.
Qed.

(** X15. [initializeProgressBars] is a round trip on the widths of the
    bars: right after the call, and until 500 ms have passed, every bar reads
    0%; from 500 ms on every bar reads the width it had before the call. *)
Theorem initializeProgressBars_round_trip (widths : list string) (t : Z) (id : nat) :
  let l := MedicalApp.initializeProgressBars (EventLoop.mkLoop t id [] widths) in
  EventLoop.vars l = map (fun _ => "0%") widths
  /\ (forall u : Z, u < t + 500 ->
                    EventLoop.vars (EventLoop.run_until u l) = map (fun _ => "0%") widths)
  /\ (forall u : Z, t + 500 <= u -> EventLoop.vars (EventLoop.run_until u l) = widths)
  /\ EventLoop.vars (EventLoop.drain l) = widths.
Proof.
  cbv zeta. unfold MedicalApp.initializeProgressBars. cbn [EventLoop.vars].
  pose proof (animateBar_pass t widths [] id [] (Forall_nil _)) as Hpass.
  cbn [List.length app] in Hpass. rewrite Hpass. clear Hpass.
  pose proof (restoreTimers_due t widths 0 id) as Hdue.
  pose proof (restoreTimers_run t widths [] (map (fun _ => "0%") widths) id
                (length_map _ _)) as Hrun.
  cbn [List.length app] in Hrun.
  split; [reflexivity|]. split; [|split].
  - intros u Hu. unfold EventLoop.run_until. cbn [EventLoop.queue EventLoop.vars].
    rewrite fire_none; [reflexivity|].
    eapply Forall_impl; [|exact Hdue]. cbn beta. intros x ->. exact Hu.
  - intros u Hu. unfold EventLoop.run_until. cbn [EventLoop.queue EventLoop.vars].
    rewrite fire_all; [exact Hrun|].
    eapply Forall_impl; [|exact Hdue]. cbn beta. intros x ->. exact Hu.
  - unfold EventLoop.drain. cbn [EventLoop.queue EventLoop.vars]. exact Hrun.
Qed.

(** ** Analytics *)

Lemma value_eqb_eq (a b : MedicalAnalytics.value) :
  MedicalAnalytics.value_eqb a b = true <-> a = b.
Proof.
  destruct a as [|s|n], b as [|s'|n']; cbn; try (split; [discriminate | congruence]).
  - split; reflexivity.
  - rewrite String.eqb_eq. split; congruence.
  - rewrite Z.eqb_eq. split; congruence.
Qed.

Lemma get_set_property (o : MedicalAnalytics.object) (key k : string)
      (v : MedicalAnalytics.value) :
  MedicalAnalytics.get (MedicalAnalytics.set_property o key v) k
  = if String.eqb key k then v else MedicalAnalytics.get o k.
Proof.
  induction o as [|[k0 x] o IH]; cbn [MedicalAnalytics.set_property MedicalAnalytics.get].
  - reflexivity.
  - destruct (String.eqb_spec k0 key) as [->|Hne]; cbn [MedicalAnalytics.get].
    + destruct (String.eqb key k); reflexivity.
    + rewrite IH. destruct (String.eqb_spec k0 k) as [->|]; [|reflexivity].
      destruct (String.eqb_spec key k); [congruence | reflexivity].
Qed.

(** In [{ ...target, ...source }] every key of [source] reads as in
    [source], every other key as in [target]. *)
Lemma get_spread (source : MedicalAnalytics.object) :
  NoDup (map fst source) ->
  forall (target : MedicalAnalytics.object) (k : string),
    MedicalAnalytics.get (MedicalAnalytics.spread target source) k
    = if has_key source k then MedicalAnalytics.get source k
      else MedicalAnalytics.get target k.
Proof.
  unfold MedicalAnalytics.spread.
  induction source as [|[k0 v0] source IH]; intros Hnd target k; [reflexivity|].
  cbn [map fst] in Hnd. apply NoDup_cons_iff in Hnd as [Hk0 Hnd].
  cbn [fold_left fst snd has_key existsb MedicalAnalytics.get].
  rewrite (IH Hnd), get_set_property.
  destruct (String.eqb_spec k0 k) as [->|Hne]; cbn [orb]; [|reflexivity].
  assert (Hno : existsb (fun kv => String.eqb (fst kv) k) source = false).
  { destruct (existsb _ source) eqn:He; [|reflexivity]. exfalso. apply Hk0.
    apply existsb_exists in He as [[k1 v1] [Hin Heq]]. cbn in Heq.
    apply String.eqb_eq in Heq. subst k1. apply (in_map fst) in Hin. exact Hin. }
  unfold has_key. now rewrite Hno.
Qed.

Lemma runTrack_invariant (h : MedicalAnalytics.host) (calls : list trackCall) :
  forall (this : MedicalAnalytics.analytics) (sent : list MedicalAnalytics.gtagCall),
    sent = (if MedicalAnalytics.gtag h
            then map (fun e => MedicalAnalytics.GtagEvent (MedicalAnalytics.get e "event") e)
                     (MedicalAnalytics.events this)
            else []) ->
    let final := fold_left (runTrack h) calls (this, sent) in
    MedicalAnalytics.sessionStart (fst final) = MedicalAnalytics.sessionStart this
    /\ List.length (MedicalAnalytics.events (fst final))
       = (List.length (MedicalAnalytics.events this) + List.length calls)%nat
    /\ firstn (List.length (MedicalAnalytics.events this)) (MedicalAnalytics.events (fst final))
       = MedicalAnalytics.events this
    /\ snd final
       = (if MedicalAnalytics.gtag h
          then map (fun e => MedicalAnalytics.GtagEvent (MedicalAnalytics.get e "event") e)
                   (MedicalAnalytics.events (fst final))
          else []).
Proof.
  induction calls as [|[[[t1 t2] ev] data] calls IH]; intros this sent Hsent; cbv zeta.
  - cbn [fold_left fst snd List.length]. rewrite Nat.add_0_r, firstn_all. now repeat split.
  - cbn [fold_left runTrack]. unfold MedicalAnalytics.track.
    set (eventData := MedicalAnalytics.spread _ data).
    set (this' := MedicalAnalytics.mkAnalytics _ _).
    specialize (IH this' (MedicalAnalytics.sendToAnalytics h eventData sent)).
    cbv zeta in IH. destruct IH as [Hstart [Hlen [Hpre Hfwd]]].
    { unfold MedicalAnalytics.sendToAnalytics. subst sent this'.
      cbn [MedicalAnalytics.events]. destruct (MedicalAnalytics.gtag h); [|reflexivity].
      now rewrite map_app. }
    subst this'. cbn [MedicalAnalytics.sessionStart MedicalAnalytics.events] in *.
    rewrite length_app in Hlen, Hpre. cbn [List.length] in *.
    split; [assumption|]. split; [lia|]. split; [|assumption].
    apply (f_equal (firstn (List.length (MedicalAnalytics.events this)))) in Hpre.
    rewrite firstn_firstn, Nat.min_l in Hpre by lia.
    rewrite Hpre, firstn_app, Nat.sub_diag, firstn_all. cbn [firstn]. apply app_nil_r.
Qed.

(** X16. Starting from a new instance, after any sequence of [track] calls
    the log holds one event per call, [sessionStart] is untouched, and the
    calls of [gtag] mirror the log: one per event, in order and under the
    name stored in the event, when the page defines [gtag]; none at all, and
    no fault, when it does not. *)
Theorem track_log_and_forwarding (h : MedicalAnalytics.host) (start now : Z)
        (calls : list trackCall) :
  let final := fold_left (runTrack h) calls (MedicalAnalytics.new start, []) in
  MedicalAnalytics.totalEvents (MedicalAnalytics.getSessionSummary now (fst final))
  = List.length calls
  /\ MedicalAnalytics.sessionDuration (MedicalAnalytics.getSessionSummary now (fst final))
     = now - start
  /\ snd final
     = (if MedicalAnalytics.gtag h
        then map (fun e => MedicalAnalytics.GtagEvent (MedicalAnalytics.get e "event") e)
                 (MedicalAnalytics.events (fst final))
        else []).
Proof.
  cbv zeta.
  destruct (runTrack_invariant h calls (MedicalAnalytics.new start) [])
    as [Hstart [Hlen [_ Hfwd]]]; [now destruct (MedicalAnalytics.gtag h)|].
  cbn [MedicalAnalytics.getSessionSummary MedicalAnalytics.totalEvents
       MedicalAnalytics.sessionDuration].
  rewrite Hstart, Hlen. now repeat split.
Qed.

(** X17. [track] only ever appends: whatever the instance holds, the events
    logged before a sequence of calls are still there afterwards, unchanged
    and in the same places. *)
Theorem track_append_only (h : MedicalAnalytics.host) (calls : list trackCall)
        (this : MedicalAnalytics.analytics) (sent : list MedicalAnalytics.gtagCall) :
  let final := fold_left (runTrack h) calls (this, sent) in
  exists added,
    MedicalAnalytics.events (fst final) = (MedicalAnalytics.events this ++ added)%list
    /\ List.length added = List.length calls.
Proof.
  cbv zeta. revert this sent.
  induction calls as [|[[[t1 t2] ev] data] calls IH]; intros this sent.
  - exists []. now rewrite app_nil_r.
  - cbn [fold_left runTrack]. unfold MedicalAnalytics.track.
    edestruct IH as [added [Hev Hlen]]. rewrite Hev. cbn [MedicalAnalytics.events].
    rewrite <- app_assoc. eexists. split; [reflexivity|]. cbn [List.length app]. now rewrite Hlen.
Qed.

Lemma new_Set_fold (values : list MedicalAnalytics.value) :
  forall seen : list MedicalAnalytics.value,
    NoDup seen ->
    let result :=
      fold_left (fun seen v => if existsb (MedicalAnalytics.value_eqb v) seen then seen
                               else (seen ++ [v])%list)
                values seen in
    NoDup result
    /\ (forall v, In v result <-> In v seen \/ In v values)
    /\ (List.length result <= List.length seen + List.length values)%nat.
Proof.
  induction values as [|x values IH]; intros seen Hnd; cbv zeta.
  - cbn [fold_left List.length]. split; [assumption|]. split; [|lia].
    intros v. cbn. tauto.
  - cbn [fold_left].
    assert (Hmem : existsb (MedicalAnalytics.value_eqb x) seen = true <-> In x seen).
    { rewrite existsb_exists. split.
      - intros [y [Hy Heq]]. apply value_eqb_eq in Heq. now subst.
      - intros Hin. exists x. split; [assumption | now apply value_eqb_eq]. }
    destruct (existsb (MedicalAnalytics.value_eqb x) seen) eqn:Hex.
    + destruct (IH seen Hnd) as [Hr [Hin Hlen]]. cbv zeta in *.
      split; [assumption|]. split; [|cbn [List.length]; lia].
      intros v. rewrite Hin. cbn [In]. split; [tauto|].
      intros [H|[<-|H]]; auto. left. now apply Hmem.
    + assert (Hnd' : NoDup (seen ++ [x])).
      { apply NoDup_app; [assumption | repeat constructor; intros [] |].
        intros y Hy [<-|[]]. apply Hmem in Hy. discriminate. }
      destruct (IH (seen ++ [x])%list Hnd') as [Hr [Hin Hlen]]. cbv zeta in *.
      split; [assumption|]. split.
      * intros v. rewrite Hin, in_app_iff. cbn [In]. tauto.
      * rewrite length_app in Hlen. cbn [List.length] in *. lia.
Qed.

(** X18. [uniqueEvents] counts the distinct event names of the log: the
    [Set] it measures holds every name of the log, each once.  So it never
    exceeds [totalEvents], and it is 0 exactly when nothing was logged. *)
Theorem getSessionSummary_uniqueEvents (now : Z) (this : MedicalAnalytics.analytics) :
  let s := MedicalAnalytics.getSessionSummary now this in
  let names := map (fun e => MedicalAnalytics.get e "event") (MedicalAnalytics.events this) in
  MedicalAnalytics.uniqueEvents s = List.length (MedicalAnalytics.new_Set names)
  /\ NoDup (MedicalAnalytics.new_Set names)
  /\ (forall v, In v (MedicalAnalytics.new_Set names) <-> In v names)
  /\ (MedicalAnalytics.uniqueEvents s <= MedicalAnalytics.totalEvents s)%nat
  /\ (MedicalAnalytics.uniqueEvents s = 0%nat <-> MedicalAnalytics.totalEvents s = 0%nat).
Proof.
  cbv zeta. cbn [MedicalAnalytics.getSessionSummary MedicalAnalytics.uniqueEvents
                 MedicalAnalytics.totalEvents].
  set (names := map _ (MedicalAnalytics.events this)).
  destruct (new_Set_fold names [] (NoDup_nil _)) as [Hnd [Hin Hlen]]. cbv zeta in *.
  fold (MedicalAnalytics.new_Set names) in *.
  assert (Hnames : List.length names = List.length (MedicalAnalytics.events this))
    by apply length_map.
  split; [reflexivity|]. split; [assumption|]. split; [|split].
  - intros v. rewrite Hin. cbn. tauto.
  - cbn [List.length] in Hlen. lia.
  - split.
    + intros H0. apply length_zero_iff_nil in H0.
      destruct names as [|v names'] eqn:Hn; [cbn in Hnames; lia|].
      exfalso. assert (Hv : In v (MedicalAnalytics.new_Set (v :: names')))
        by (apply Hin; right; now left).
      rewrite H0 in Hv. destruct Hv.
    + intros H0. rewrite H0 in Hnames. apply length_zero_iff_nil in Hnames.
      now rewrite Hnames.
Qed.

(** X19. What [track] stores for a key is the value [data] gives it, when
    [data] has the key, and the value of the record built by [track]
    otherwise.  So a [data] with its own "event" (or "timestamp", ...)
    replaces the name passed as first argument, in the log and in the call
    of [gtag] alike. *)
Theorem track_data_overrides (h : MedicalAnalytics.host) (timestamp later : Z)
        (event : MedicalAnalytics.value) (data : MedicalAnalytics.object)
        (this : MedicalAnalytics.analytics) (sent : list MedicalAnalytics.gtagCall) :
  NoDup (map fst data) ->
  exists eventData,
    fst (MedicalAnalytics.track h timestamp later event data (this, sent))
    = MedicalAnalytics.mkAnalytics (MedicalAnalytics.sessionStart this)
                                   (MedicalAnalytics.events this ++ [eventData])
    /\ (forall k : string,
           MedicalAnalytics.get eventData k
           = if has_key data k then MedicalAnalytics.get data k
             else MedicalAnalytics.get
                    (baseEvent h (MedicalAnalytics.sessionStart this) timestamp later event) k)
    /\ snd (MedicalAnalytics.track h timestamp later event data (this, sent))
       = (if MedicalAnalytics.gtag h
          then sent ++ [MedicalAnalytics.GtagEvent
                          (if has_key data "event" then MedicalAnalytics.get data "event"
                           else event)
                          eventData]
          else sent)%list.
Proof.
  intros Hnd. unfold MedicalAnalytics.track. cbn [fst snd].
  set (eventData := MedicalAnalytics.spread _ data).
  exists eventData. split; [reflexivity|].
  assert (Hget : forall k : string,
             MedicalAnalytics.get eventData k
             = if has_key data k then MedicalAnalytics.get data k
               else MedicalAnalytics.get
                      (baseEvent h (MedicalAnalytics.sessionStart this) timestamp later event) k).
  { intros k. subst eventData. now rewrite get_spread. }
  split; [exact Hget|].
  unfold MedicalAnalytics.sendToAnalytics. rewrite Hget.
  destruct (has_key data "event"); reflexivity.
Qed.

Lemma track_data_overrides_witness :
  let h := MedicalAnalytics.mkHost "agent" "https://clinic.example/" true in
  let data := [("event", MedicalAnalytics.Str "spoofed"); ("page", MedicalAnalytics.Str "/")] in
  exists eventData,
    fst (MedicalAnalytics.track h 10 11 (MedicalAnalytics.Str "page_view") data
                                (MedicalAnalytics.new 0, []))
    = MedicalAnalytics.mkAnalytics 0 ([] ++ [eventData])%list
    /\ (forall k : string,
           MedicalAnalytics.get eventData k
           = if has_key data k then MedicalAnalytics.get data k
             else MedicalAnalytics.get
                    (baseEvent h 0 10 11 (MedicalAnalytics.Str "page_view")) k)
    /\ snd (MedicalAnalytics.track h 10 11 (MedicalAnalytics.Str "page_view") data
                                   (MedicalAnalytics.new 0, []))
       = ([] ++ [MedicalAnalytics.GtagEvent (MedicalAnalytics.Str "spoofed") eventData])%list.
Proof.
  apply (track_data_overrides
           (MedicalAnalytics.mkHost "agent" "https://clinic.example/" true) 10 11
           (MedicalAnalytics.Str "page_view")
           [("event", MedicalAnalytics.Str "spoofed"); ("page", MedicalAnalytics.Str "/")]
           (MedicalAnalytics.new 0) []).
  cbn. repeat constructor; cbn; intuition discriminate.
Defined.

(** X20. The two global listeners record an event only when the event
    carries what they read.  The [error] listener throws exactly when
    [e.error] is null or undefined (as for an error of a cross-origin
    script), and otherwise logs one javascript_error with the error's
    message; the [unhandledrejection] listener throws exactly when the
    rejection has no reason, and otherwise logs one promise_rejection with
    the reason's text. *)
Theorem global_listeners_need_payload (h : MedicalAnalytics.host) (timestamp later : Z)
        (this : MedicalAnalytics.analytics) (sent : list MedicalAnalytics.gtagCall) :
  (forall e : MedicalAnalytics.errorEvent,
      match MedicalAnalytics.error e with
      | None =>
          exists message,
            MedicalAnalytics.onError h timestamp later e (this, sent) = Throw message
      | Some m =>
          exists eventData st',
            MedicalAnalytics.onError h timestamp later e (this, sent) = Return st'
            /\ MedicalAnalytics.events (fst st')
               = (MedicalAnalytics.events this ++ [eventData])%list
            /\ MedicalAnalytics.get eventData "event" = MedicalAnalytics.Str "javascript_error"
            /\ MedicalAnalytics.get eventData "message" = m
      end)
  /\ (forall reason : option string,
      match reason with
      | None =>
          exists message,
            MedicalAnalytics.onUnhandledRejection h timestamp later reason (this, sent)
            = Throw message
      | Some text =>
          exists eventData st',
            MedicalAnalytics.onUnhandledRejection h timestamp later reason (this, sent)
            = Return st'
            /\ MedicalAnalytics.events (fst st')
               = (MedicalAnalytics.events this ++ [eventData])%list
            /\ MedicalAnalytics.get eventData "event" = MedicalAnalytics.Str "promise_rejection"
            /\ MedicalAnalytics.get eventData "reason" = MedicalAnalytics.Str text
      end).
Proof.
  split.
  - intros e. unfold MedicalAnalytics.onError.
    destruct (MedicalAnalytics.error e) as [m|]; [|now eexists].
    eexists. eexists. split; [reflexivity|]. split; [reflexivity|]. split; reflexivity.
  - intros [text|]; unfold MedicalAnalytics.onUnhandledRejection; [|now eexists].
    eexists. eexists. split; [reflexivity|]. split; [reflexivity|]. split; reflexivity.
Qed.

(** ** Toasts *)

Lemma detach_not_attached (key : nat) (doc : UIComponents.toastDoc) :
  UIComponents.attached key doc = false -> UIComponents.detach key doc = doc.
Proof.
  unfold UIComponents.attached, UIComponents.detach.
  induction doc as [|c doc IH]; [reflexivity|].
  cbn [existsb map]. intros H. apply orb_false_iff in H as [Hc Hdoc].
  rewrite (IH Hdoc). f_equal.
  induction c as [|t c IHc]; [reflexivity|].
  cbn [existsb filter] in *. apply orb_false_iff in Hc as [Ht Hc].
  rewrite Ht. cbn [negb]. now rewrite IHc.
Qed.

Lemma detach_hide (key : nat) (doc : UIComponents.toastDoc) :
  UIComponents.detach key (UIComponents.hide key doc) = UIComponents.detach key doc.
Proof.
  unfold UIComponents.detach, UIComponents.hide. rewrite map_map. apply map_ext.
  intros c. induction c as [|t c IH]; [reflexivity|].
  cbn [map filter]. destruct (Nat.eqb (UIComponents.toast_key t) key) eqn:Hk;
    cbn [UIComponents.toast_key]; rewrite Hk; cbn [negb]; now rewrite IH.
Qed.

Lemma filter_app_last {A : Type} (f : A -> bool) (l : list A) (x : A) :
  filter f (l ++ [x]) = (filter f l ++ if f x then [x] else [])%list.
Proof.
  rewrite filter_app. reflexivity.
Qed.

Lemma detach_appendToFirst (t : UIComponents.toast) (doc : UIComponents.toastDoc) :
  UIComponents.detach (UIComponents.toast_key t) (UIComponents.appendToFirst t doc)
  = UIComponents.detach (UIComponents.toast_key t) doc.
Proof.
  destruct doc as [|c doc]; [reflexivity|].
  unfold UIComponents.detach. cbn [UIComponents.appendToFirst map].
  rewrite filter_app_last, Nat.eqb_refl. cbn [negb]. now rewrite app_nil_r.
Qed.

Lemma attached_appendToFirst (t : UIComponents.toast) (c : list UIComponents.toast)
      (doc : UIComponents.toastDoc) :
  UIComponents.attached (UIComponents.toast_key t) (UIComponents.appendToFirst t (c :: doc))
  = true.
Proof.
  unfold UIComponents.attached. cbn [UIComponents.appendToFirst existsb].
  rewrite existsb_app. cbn [existsb]. rewrite Nat.eqb_refl.
  now rewrite orb_true_r.
Qed.



Lemma exec_containers_length (tk : UIComponents.task) (w : UIComponents.world) :
  List.length (UIComponents.containers (UIComponents.exec tk w))
  = List.length (UIComponents.containers w).
Proof.
  destruct tk as [key|key]; cbn [UIComponents.exec].
  - destruct (UIComponents.attached key (UIComponents.containers w)); [|reflexivity].
    cbn [UIComponents.containers]. apply length_map.
  - cbn [UIComponents.containers]. apply length_map.
Qed.

Lemma run_containers_length (fuel : nat) (t : Z) :
  forall w : UIComponents.world,
    List.length (UIComponents.containers (UIComponents.run fuel t w))
    = List.length (UIComponents.containers w).
Proof.
  induction fuel as [|fuel IH]; intros w; [reflexivity|].
  cbn [UIComponents.run]. destruct (UIComponents.pending w) as [|[due tk] rest]; [reflexivity|].
  destruct (due <=? t); [|reflexivity].
  now rewrite IH, exec_containers_length.
Qed.

Lemma createToast_containers_length (type : option string) (duration : option Z)
      (w : UIComponents.world) :
  List.length (UIComponents.containers (UIComponents.createToast type duration w))
  = Nat.max 1 (List.length (UIComponents.containers w)).
Proof.
  unfold UIComponents.createToast.
  destruct (UIComponents.containers w) as [|c rest] eqn:Hc;
    cbn [UIComponents.containers UIComponents.createToastContainer]; rewrite ?Hc; reflexivity.
Qed.

(** X22. The toast container is created at most once.  After one or more
    calls of [createToast], at any times and with any timers running in
    between, a page that had no toast container has exactly one, and a page
    that had some has as many as before. *)
Theorem createToast_single_container (w : UIComponents.world) (first : toastCall)
        (rest : list toastCall) :
  List.length (UIComponents.containers (fold_left showToast (first :: rest) w))
  = Nat.max 1 (List.length (UIComponents.containers w)).
Proof.
  assert (Hstep : forall w c,
             List.length (UIComponents.containers (showToast w c))
             = Nat.max 1 (List.length (UIComponents.containers w))).
  { intros w' [[t type] duration]. unfold showToast.
    rewrite createToast_containers_length. unfold UIComponents.run_until.
    cbn [UIComponents.containers]. now rewrite run_containers_length. }
  assert (Hall : forall cs w,
             List.length (UIComponents.containers (fold_left showToast cs w))
             = match cs with
               | [] => List.length (UIComponents.containers w)
               | _ :: _ => Nat.max 1 (List.length (UIComponents.containers w))
               end).
  { induction cs as [|c cs IH]; intros w'; [reflexivity|].
    cbn [fold_left]. rewrite IH, !Hstep. destruct cs; lia. }
  apply (Hall (first :: rest)).
Qed.

(** X23. A toast dismissed before its duration is over is left alone by its
    timer: the callback finds it detached, changes nothing and starts no
    second timer, so the document stays as the dismissal left it and no
    timer is pending once the duration has passed. *)
Theorem createToast_dismissed_early (type : option string) (duration : option Z)
        (t0 : Z) (key : nat) (doc : UIComponents.toastDoc) :
  let d := match duration with Some d => d | None => 5000 end in
  let home := match doc with [] => [[]] | _ :: _ => doc end in
  let w := dismiss key (UIComponents.createToast type duration
                                                 (UIComponents.mkWorld t0 key [] doc)) in
  0 <= d ->
  UIComponents.attached key doc = false ->
  UIComponents.containers w = home
  /\ (forall u : Z, UIComponents.containers (UIComponents.run_until u w) = home)
  /\ (forall u : Z, t0 + d <= u -> UIComponents.pending (UIComponents.run_until u w) = []).
Proof.
  cbv zeta. intros Hd Hfresh.
  set (d := match duration with Some d => d | None => 5000 end) in *.
  set (ty := match type with Some t => t | None => "info" end).
  set (home := match doc with [] => [[]] | _ :: _ => doc end).
  assert (Hhome : UIComponents.attached key home = false)
    by (subst home; destruct doc; [reflexivity | assumption]).
  assert (Hw : dismiss key (UIComponents.createToast type duration
                                                     (UIComponents.mkWorld t0 key [] doc))
               = UIComponents.mkWorld t0 (S key) [(t0 + d, UIComponents.Expire key)] home).
  { unfold dismiss, UIComponents.createToast. fold d ty.
    assert (Hdet : forall classes,
               UIComponents.detach key
                 (UIComponents.appendToFirst (UIComponents.mkToast key classes) home) = home).
    { intros classes. rewrite (detach_appendToFirst (UIComponents.mkToast key classes)).
      now apply detach_not_attached. }
    subst home. destruct doc as [|c rest];
      cbn [UIComponents.containers UIComponents.createToastContainer UIComponents.clock
           UIComponents.fresh UIComponents.pending UIComponents.schedule app];
      rewrite (Z.max_r 0 d) by lia; f_equal; apply Hdet. }
  rewrite Hw. clear Hw. split; [reflexivity|]. split.
  - intros u. unfold UIComponents.run_until.
    cbn [UIComponents.pending UIComponents.weight fold_right snd UIComponents.run
         UIComponents.containers UIComponents.fresh Nat.add].
    destruct (Z.leb_spec (t0 + d) u); [|reflexivity].
    cbn [UIComponents.exec UIComponents.containers]. rewrite Hhome. reflexivity.
  - intros u Hu. unfold UIComponents.run_until.
    cbn [UIComponents.pending UIComponents.weight fold_right snd UIComponents.run
         UIComponents.containers UIComponents.fresh Nat.add].
    destruct (Z.leb_spec (t0 + d) u); [|lia].
    cbn [UIComponents.exec UIComponents.containers]. rewrite Hhome. reflexivity.
Qed.

Lemma createToast_dismissed_early_witness :
  let w := dismiss 3 (UIComponents.createToast (Some "success") (Some 2000)
                                               (UIComponents.mkWorld 100 3 [] [[]])) in
  UIComponents.containers w = [[]]
  /\ (forall u : Z, UIComponents.containers (UIComponents.run_until u w) = [[]])
  /\ (forall u : Z, 100 + 2000 <= u -> UIComponents.pending (UIComponents.run_until u w) = []).
Proof.
  apply (createToast_dismissed_early (Some "success") (Some 2000) 100 3 [[]]).
  - lia.
  - reflexivity.
Defined.

(** The timer queue of the toast model is adequate: kept in the order of the
    due times, it is run until no timer due at or before [t] is left. *)
Lemma schedule_weight (due : Z) (tk : UIComponents.task) (q : list (Z * UIComponents.task)) :
  UIComponents.weight (UIComponents.schedule due tk q)
  = (UIComponents.weight [(due, tk)] + UIComponents.weight q)%nat.
Proof.
  induction q as [|x q IH]; [cbn; lia|].
  cbn [UIComponents.schedule].
  destruct (fst x <=? due); unfold UIComponents.weight in *; cbn [fold_right snd] in *; lia.
Qed.

Lemma schedule_sorted (due : Z) (tk : UIComponents.task) (q : list (Z * UIComponents.task)) :
  StronglySorted (fun x y => fst x <= fst y) q ->
  StronglySorted (fun x y => fst x <= fst y) (UIComponents.schedule due tk q)
  /\ forall lo, Forall (fun y => lo <= fst y) q -> lo <= due ->
                Forall (fun y => lo <= fst y) (UIComponents.schedule due tk q).
Proof.
  induction 1 as [|x q Hq IH Hx].
  - split; [repeat constructor|]. intros lo _ Hlo. now repeat constructor.
  - cbn [UIComponents.schedule]. destruct (Z.leb_spec (fst x) due) as [Hle|Hgt].
    + destruct IH as [IHs IHf]. split.
      * constructor; [assumption|]. apply IHf; assumption.
      * intros lo Hall Hlo. inversion Hall; subst. constructor; [assumption|].
        now apply IHf.
    + split.
      * constructor; [now constructor|]. constructor; [cbn; lia|].
        eapply Forall_impl; [|exact Hx]. cbn. intros y Hy. lia.
      * intros lo Hall Hlo. now constructor.
Qed.

Lemma run_settles (fuel : nat) (t : Z) :
  forall w : UIComponents.world,
    (UIComponents.weight (UIComponents.pending w) <= fuel)%nat ->
    StronglySorted (fun x y => fst x <= fst y) (UIComponents.pending w) ->
    Forall (fun x => t < fst x) (UIComponents.pending (UIComponents.run fuel t w)).
Proof.
  induction fuel as [|fuel IH]; intros w Hfuel Hsorted.
  - destruct (UIComponents.pending w) as [|[due tk] rest] eqn:Hq; cbn [UIComponents.run].
    + rewrite Hq. constructor.
    + unfold UIComponents.weight in Hfuel. cbn [fold_right snd] in Hfuel. destruct tk; lia.
  - cbn [UIComponents.run].
    destruct (UIComponents.pending w) as [|[due tk] rest] eqn:Hq.
    + rewrite Hq. constructor.
    + inversion Hsorted as [|? ? Hrest Hhead]; subst.
      destruct (Z.leb_spec due t) as [Hdue|Hdue].
      * apply IH.
        -- destruct tk as [key|key]; cbn [UIComponents.exec UIComponents.containers].
           ++ destruct (UIComponents.attached key _);
                cbn [UIComponents.pending UIComponents.clock];
                rewrite ?schedule_weight; unfold UIComponents.weight in *;
                cbn [fold_right snd] in *; lia.
           ++ cbn [UIComponents.pending]. unfold UIComponents.weight in *.
              cbn [fold_right snd] in *. lia.
        -- destruct tk as [key|key]; cbn [UIComponents.exec UIComponents.containers].
           ++ destruct (UIComponents.attached key _);
                cbn [UIComponents.pending UIComponents.clock]; [|assumption].
              now apply schedule_sorted.
           ++ assumption.
      * rewrite Hq. constructor; [cbn; lia|].
        eapply Forall_impl; [|exact Hhead]. cbn. intros y Hy. lia.
Qed.

(** ** Clipboard fallback *)

Lemma filter_fresh (node : nat) (body : list nat) :
  ~ In node body -> filter (fun n => negb (Nat.eqb n node)) body = body.
Proof.
  induction body as [|x body IH]; [reflexivity|].
  intros Hnot. cbn [filter].
  destruct (Nat.eqb_spec x node) as [->|Hne]; [exfalso; apply Hnot; now left|].
  cbn [negb]. rewrite IH; [reflexivity|]. intros H. apply Hnot. now right.
Qed.

(** X24. [copyToClipboard] leaves the body with the children it had, on
    every path: with [navigator.clipboard] it touches nothing, and without it
    the temporary textarea is removed again whether [execCommand] returns or
    throws.  The fallback resolves whenever [execCommand] returns, also when
    it returns false, and rejects with the error only when it throws. *)
Theorem copyToClipboard_cleans_up (clipboard : option Utils.promise)
        (exec : Utils.execResult) (textArea : nat) (body : list nat) :
  ~ In textArea body ->
  snd (Utils.copyToClipboard clipboard exec textArea body) = body
  /\ fst (Utils.copyToClipboard clipboard exec textArea body)
     = match clipboard, exec with
       | Some p, _ => p
       | None, Utils.ExecReturns _ => Utils.Resolved
       | None, Utils.ExecThrows err => Utils.Rejected err
       end.
Proof.
  intros Hfresh. unfold Utils.copyToClipboard.
  destruct clipboard as [p|]; cbn [fst snd]; [split; reflexivity|].
  split; [|destruct exec; reflexivity].
  rewrite filter_app. cbn [filter]. rewrite Nat.eqb_refl. cbn [negb].
  rewrite app_nil_r. now apply filter_fresh.
Qed.

Lemma copyToClipboard_cleans_up_witness :
  snd (Utils.copyToClipboard None (Utils.ExecThrows "denied") 9 [1; 2; 3]%nat) = [1; 2; 3]%nat
  /\ fst (Utils.copyToClipboard None (Utils.ExecThrows "denied") 9 [1; 2; 3]%nat)
     = Utils.Rejected "denied".
Proof.
  apply (copyToClipboard_cleans_up None (Utils.ExecThrows "denied") 9 [1; 2; 3]%nat).
  cbn. intuition discriminate.
Defined.

(** ** Modals *)

Lemma filter_modal_fresh (node : nat) (body : list UIComponents.modalEl) :
  (forall m, In m body -> UIComponents.modal_node m <> node) ->
  filter (fun m => negb (Nat.eqb (UIComponents.modal_node m) node)) body = body.
Proof.
  induction body as [|x body IH]; [reflexivity|].
  intros Hfresh. cbn [filter].
  destruct (Nat.eqb_spec (UIComponents.modal_node x) node) as [Heq|Hne].
  - exfalso. apply (Hfresh x); [now left | assumption].
  - cbn [negb]. rewrite IH; [reflexivity|]. intros m Hm. apply Hfresh. now right.
Qed.

(** X25. [showModal] attaches the modal before it asks for the toolkit.
    With [bootstrap] defined the call returns, and the hidden event of the
    toolkit removes the modal again, leaving the body as it was.  Without
    [bootstrap] the call throws with the modal already in the body, and no
    listener was installed, so the hidden event never removes it. *)
Theorem showModal_attach_and_cleanup (now : Z) (fresh : nat) (p : UIComponents.modalPage) :
  (forall m, In m (UIComponents.body p) -> UIComponents.modal_node m <> fresh) ->
  ~ In fresh (UIComponents.hiddenListeners p) ->
  let modal := UIComponents.mkModalEl fresh (UIComponents.modalId now) in
  (snd (UIComponents.showModal true now fresh p) = Return fresh
   /\ UIComponents.body (fst (UIComponents.showModal true now fresh p))
      = (UIComponents.body p ++ [modal])%list
   /\ UIComponents.body (UIComponents.onHidden fresh
                           (fst (UIComponents.showModal true now fresh p)))
      = UIComponents.body p)
  /\ (snd (UIComponents.showModal false now fresh p) = Throw "bootstrap is not defined"
      /\ UIComponents.body (fst (UIComponents.showModal false now fresh p))
         = (UIComponents.body p ++ [modal])%list
      /\ UIComponents.onHidden fresh (fst (UIComponents.showModal false now fresh p))
         = fst (UIComponents.showModal false now fresh p)).
Proof.
  intros Hfresh Hlisten. cbv zeta. unfold UIComponents.showModal. cbn [fst snd].
  split.
  - split; [reflexivity|]. split; [reflexivity|].
    unfold UIComponents.onHidden. cbn [UIComponents.hiddenListeners UIComponents.body].
    rewrite existsb_app. cbn [existsb]. rewrite Nat.eqb_refl, orb_true_r.
    cbn [UIComponents.body]. rewrite filter_app. cbn [filter UIComponents.modal_node].
    rewrite Nat.eqb_refl. cbn [negb]. rewrite app_nil_r. now apply filter_modal_fresh.
  - split; [reflexivity|]. split; [reflexivity|].
    unfold UIComponents.onHidden. cbn [UIComponents.hiddenListeners].
    destruct (existsb (Nat.eqb fresh) (UIComponents.hiddenListeners p)) eqn:He; [|reflexivity].
    exfalso. apply Hlisten. apply existsb_exists in He as [x [Hx Heq]].
    apply Nat.eqb_eq in Heq. now subst.
Qed.

Lemma showModal_attach_and_cleanup_witness :
  let p := UIComponents.mkModalPage [UIComponents.mkModalEl 1 "about"] [] [] in
  let modal := UIComponents.mkModalEl 2 (UIComponents.modalId 1700000000000) in
  (snd (UIComponents.showModal true 1700000000000 2 p) = Return 2%nat
   /\ UIComponents.body (fst (UIComponents.showModal true 1700000000000 2 p))
      = (UIComponents.body p ++ [modal])%list
   /\ UIComponents.body (UIComponents.onHidden 2
                           (fst (UIComponents.showModal true 1700000000000 2 p)))
      = UIComponents.body p)
  /\ (snd (UIComponents.showModal false 1700000000000 2 p) = Throw "bootstrap is not defined"
      /\ UIComponents.body (fst (UIComponents.showModal false 1700000000000 2 p))
         = (UIComponents.body p ++ [modal])%list
      /\ UIComponents.onHidden 2 (fst (UIComponents.showModal false 1700000000000 2 p))
         = fst (UIComponents.showModal false 1700000000000 2 p)).
Proof.
  apply (showModal_attach_and_cleanup 1700000000000 2
           (UIComponents.mkModalPage [UIComponents.mkModalEl 1 "about"] [] [])).
  - cbn. intros m [<-|[]]. cbn. discriminate.
  - cbn. tauto.
Defined.

Lemma integer_text_inj (a b : Z) :
  0 <= a -> 0 <= b -> integer_text a = integer_text b -> a = b.
Proof.
  intros Ha Hb H. unfold integer_text in H.
  assert (Hnorm : forall n, N.to_uint n <> Decimal.Nil).
  { intros n. rewrite <- (DecimalN.Unsigned.of_to n) at 1.
    rewrite DecimalN.Unsigned.to_of. apply DecimalFacts.unorm_nonnil. }
  apply (f_equal NilZero.uint_of_string) in H.
  rewrite !NilZero.usu in H by apply Hnorm.
  injection H as H. apply DecimalN.Unsigned.to_uint_inj in H.
  now apply Z2N.inj.
Qed.

(** X26. The generated id of a modal is the clock reading and nothing else:
    two calls of [showModal] give their modals the same id exactly when
    [Date.now()] reads the same millisecond for both. *)
Theorem showModal_id_collision (b1 b2 : bool) (t1 t2 : Z) (n1 n2 : nat)
        (p1 p2 : UIComponents.modalPage) :
  0 <= t1 -> 0 <= t2 ->
  let id_of b t n p :=
    UIComponents.modal_id
      (last (UIComponents.body (fst (UIComponents.showModal b t n p)))
            (UIComponents.mkModalEl n EmptyString)) in
  id_of b1 t1 n1 p1 = id_of b2 t2 n2 p2 <-> t1 = t2.
Proof.
  intros H1 H2. cbv beta zeta.
  assert (Hid : forall b t n p,
             UIComponents.modal_id
               (last (UIComponents.body (fst (UIComponents.showModal b t n p)))
                     (UIComponents.mkModalEl n EmptyString))
             = UIComponents.modalId t).
  { intros b t n p. unfold UIComponents.showModal.
    destruct b; cbn [fst UIComponents.body]; now rewrite last_last. }
  rewrite !Hid. split; [|now intros ->].
  unfold UIComponents.modalId. intros H. cbn [String.append] in H.
  injection H as H. now apply integer_text_inj.
Qed.

Lemma showModal_id_collision_witness :
  let p := UIComponents.mkModalPage [] [] [] in
  let id_of b t n p :=
    UIComponents.modal_id
      (last (UIComponents.body (fst (UIComponents.showModal b t n p)))
            (UIComponents.mkModalEl n EmptyString)) in
  id_of true 1700000000000 1%nat p = id_of false 1700000000000 2%nat p
  <-> 1700000000000 = 1700000000000.
Proof.
  apply (showModal_id_collision true false 1700000000000 1700000000000 1 2
           (UIComponents.mkModalPage [] [] []) (UIComponents.mkModalPage [] [] [])).
  - lia.
  - lia.
Defined.

(** ** Button labels *)

Lemma trimEnd_idempotent (s : string) : trimEnd (trimEnd s) = trimEnd s.
Proof.
  induction s as [|c s IH]; [reflexivity|].
  cbn [trimEnd]. destruct (trimEnd s) as [|d kept] eqn:Hs.
  - destruct (is_space c) eqn:Hc; [reflexivity|].
    cbn [trimEnd]. now rewrite Hc.
  - change (trimEnd (String c (String d kept)))
      with (match trimEnd (String d kept) with
            | EmptyString => if is_space c then EmptyString else String c EmptyString
            | String x y => String c (String x y)
            end).
    now rewrite IH.
Qed.

(** A string that does not begin with white space keeps its first unit
    through [trimEnd]. *)
Lemma trimEnd_head (c : ascii) (s : string) :
  is_space c = false -> exists kept, trimEnd (String c s) = String c kept.
Proof.
  intros Hc. cbn [trimEnd]. destruct (trimEnd s) as [|d kept].
  - rewrite Hc. now exists EmptyString.
  - now exists (String d kept).
Qed.

Lemma trimStart_head (s : string) :
  trimStart s = EmptyString
  \/ exists c rest, trimStart s = String c rest /\ is_space c = false.
Proof.
  induction s as [|c s IH]; [now left|].
  cbn [trimStart]. destruct (is_space c) eqn:Hc; [exact IH|].
  right. now exists c, s.
Qed.

Lemma trim_idempotent (s : string) : trim (trim s) = trim s.
Proof.
  unfold trim. destruct (trimStart_head s) as [->|[c [rest [-> Hc]]]]; [reflexivity|].
  destruct (trimEnd_head c rest Hc) as [kept Hk].
  rewrite Hk at 1. cbn [trimStart]. rewrite Hc, <- Hk. apply trimEnd_idempotent.
Qed.

(** X27. The labelling pass of [setupAccessibility]: a button that had an
    [aria-label] keeps it; a button without one gets its trimmed text as
    label, a label that is not empty and has no white space at either end;
    a button still without label after the pass has nothing but white space
    as text.  No button is added, dropped or reordered, and a second pass
    changes nothing. *)
Theorem setupAccessibility_labels (buttons : list MedicalApp.button) :
  Forall2 (fun b b' =>
             MedicalApp.button_id b' = MedicalApp.button_id b
             /\ MedicalApp.textContent b' = MedicalApp.textContent b
             /\ match MedicalApp.aria_label b with
                | Some label => MedicalApp.aria_label b' = Some label
                | None =>
                    match MedicalApp.aria_label b' with
                    | Some label =>
                        label = trim (MedicalApp.textContent b)
                        /\ label <> EmptyString /\ trim label = label
                    | None => trim (MedicalApp.textContent b) = EmptyString
                    end
                end)
          buttons (MedicalApp.setupAccessibility buttons)
  /\ MedicalApp.setupAccessibility (MedicalApp.setupAccessibility buttons)
     = MedicalApp.setupAccessibility buttons.
Proof.
  unfold MedicalApp.setupAccessibility. split.
  - induction buttons as [|b buttons IH]; [constructor|].
    cbn [map]. constructor; [|exact IH].
    destruct b as [id [label|] text]; cbn [MedicalApp.aria_label MedicalApp.textContent
                                           MedicalApp.button_id].
    + now repeat split.
    + destruct (trim text) as [|c kept] eqn:Ht;
        cbn [MedicalApp.aria_label MedicalApp.textContent MedicalApp.button_id].
      * now repeat split.
      * repeat split; [discriminate|]. rewrite <- Ht. apply trim_idempotent.
  - rewrite map_map. apply map_ext. intros [id [label|] text];
      cbn [MedicalApp.aria_label MedicalApp.textContent]; [reflexivity|].
    destruct (trim text) as [|c kept] eqn:Ht;
      cbn [MedicalApp.aria_label MedicalApp.textContent]; [now rewrite Ht | reflexivity].
Qed.

(** ** Reveal on intersection *)

Lemma onIntersection_map (entries : list (nat * bool)) :
  forall els : list Dom.htmlElement,
    MedicalApp.onIntersection entries els = map (revealOne entries) els.
Proof.
  unfold MedicalApp.onIntersection, revealOne.
  induction entries as [|[target flag] entries IH]; intros els.
  - cbn [fold_left]. now rewrite map_id.
  - cbn [fold_left fst snd]. rewrite IH. destruct flag; cbn [andb]; [|reflexivity].
    unfold MedicalApp.reveal. rewrite map_map. apply map_ext. intros el.
    destruct (Nat.eqb (Dom.el_id el) target); reflexivity.
Qed.

Lemma revealOne_spec (entries : list (nat * bool)) :
  forall el : Dom.htmlElement,
    Dom.el_id (revealOne entries el) = Dom.el_id el
    /\ Dom.data_bs_toggle (revealOne entries el) = Dom.data_bs_toggle el
    /\ forall t : string,
         Dom.contains (Dom.el_classList (revealOne entries el)) t
         = Dom.contains (Dom.el_classList el) t
           || String.eqb t "animate-in"
              && existsb (fun e => snd e && Nat.eqb (Dom.el_id el) (fst e)) entries.
Proof.
  unfold revealOne.
  induction entries as [|[target flag] entries IH]; intros el.
  - cbn [fold_left existsb]. repeat split. intros t. now rewrite andb_false_r, orb_false_r.
  - cbn [fold_left existsb fst snd].
    destruct (flag && Nat.eqb (Dom.el_id el) target) eqn:Hhit.
    + destruct (IH (Dom.mkHtmlElement (Dom.el_id el)
                      (Dom.add (Dom.el_classList el) "animate-in") (Dom.data_bs_toggle el)))
        as [Hid [Hattr Hcl]].
      cbn [Dom.el_id Dom.data_bs_toggle Dom.el_classList] in *.
      split; [assumption|]. split; [assumption|].
      intros t. rewrite Hcl, contains_add. cbn [orb].
      destruct (String.eqb t "animate-in"), (Dom.contains (Dom.el_classList el) t);
        reflexivity.
    + destruct (IH el) as [Hid [Hattr Hcl]].
      split; [assumption|]. split; [assumption|].
      intros t. rewrite Hcl. reflexivity.
Qed.

(** X28. The reveal animation is one-way.  After any batch of observer
    entries an element carries animate-in exactly when it carried it before
    or one of the entries for it was intersecting; an entry that is not
    intersecting never takes the class away, and no other class, attribute or
    element is changed. *)
Theorem onIntersection_reveals (entries : list (nat * bool)) (els : list Dom.htmlElement) :
  Forall2 (fun el el' =>
             Dom.el_id el' = Dom.el_id el
             /\ Dom.data_bs_toggle el' = Dom.data_bs_toggle el
             /\ forall t : string,
                  Dom.contains (Dom.el_classList el') t
                  = Dom.contains (Dom.el_classList el) t
                    || String.eqb t "animate-in"
                       && existsb (fun e => snd e && Nat.eqb (Dom.el_id el) (fst e)) entries)
          els (MedicalApp.onIntersection entries els).
Proof.
  rewrite onIntersection_map.
  induction els as [|el els IH]; cbn [map]; constructor; [|exact IH].
  apply revealOne_spec.
Qed.
